(** * The fetch cache of the performance optimizer

    A shallow embedding of the caching layer that
    [src/js/performance-optimizer.js] installs over [window.fetch]
    ([implementResourceCaching], [shouldCache], [getCacheTTL],
    [isCacheValid], [optimizeMemory]), together with the part of
    [JSON.stringify] and [String.prototype.includes] that the cache key and
    the classification of resources rely on.

    Conventions of the embedding:
    - a JavaScript string is a [string] of code units below 256 (UTF-8 bytes
      for anything outside ASCII);
    - [Date.now()] is an integer number of milliseconds, a [Z];
    - the [Map] held in [this.cache] is a [gmap string CacheEntry];
    - the resource handed to [fetch] is a string;
    - the wrapped [originalFetch] is a transport oracle: it either resolves
      with a response or rejects with an error;
    - [console.log] output is not modelled. *)

From Stdlib Require Import ZArith Ascii String DecimalString Lia.
From Stdlib Require QArith.
From stdpp Require Import gmap strings list fin_maps.

Local Open Scope Z_scope.
Local Set Warnings "-register-all".

(** ** JavaScript values and errors *)

Module Js.

(** What a [throw] carries: the [name] and [message] of an [Error]. *)
Record JsError := mkError { name : string; message : string }.

(** The completion of an evaluation: a value, or an exception. *)
Inductive Completion (A : Type) :=
| Normal (a : A)
| Throw (e : JsError).
Arguments Normal {A} a.
Arguments Throw {A} e.

(** The values that can be handed to [fetch] as [options]. An object is the
    list of its own enumerable string-keyed properties in the order in which
    [Object.keys] enumerates them (insertion order for the keys used in
    request options). [JCircular] is a property that refers back to an object
    that encloses it. [JNum z] is the integral Number [z] for
    [-2^53 <= z <= 2^53], the integers that a double holds without gaps;
    other Numbers (fractions, larger magnitudes, NaN, infinities) are not
    among the modelled values, and a [JNum z] outside that range stands for
    no JavaScript value. *)
Inductive JsValue :=
| JUndefined
| JNull
| JBool (b : bool)
| JNum (z : Z)
| JBigInt (z : Z)
| JStr (s : string)
| JFunction
| JArr (elements : list JsValue)
| JObj (properties : list (string * JsValue))
| JCircular.

Definition dquote : ascii := "034"%char.
Definition backslash : ascii := "092"%char.
Definition underscore : ascii := "095"%char.

(** [String.prototype.includes]: [search] occurs in [s] at some position. *)
Fixpoint includes (s search : string) : bool :=
  String.prefix search s ||
  match s with
  | EmptyString => false
  | String _ s' => includes s' search
  end.

End Js.

(** ** JSON.stringify *)

Module JSON.
Import Js.

Definition hex_digit (n : N) : ascii :=
  ascii_of_N (if (n <? 10)%N then 48 + n else 87 + n).

(** One code unit of QuoteJSONString. *)
Definition quote_code_unit (c : ascii) : string :=
  let n := N_of_ascii c in
  if (n =? 8)%N then "\b"
  else if (n =? 9)%N then "\t"
  else if (n =? 10)%N then "\n"
  else if (n =? 12)%N then "\f"
  else if (n =? 13)%N then "\r"
  else if (n <? 32)%N then
    "\u00" +:+ String (hex_digit (n / 16)) (String (hex_digit (n mod 16)) "")
  else if (n =? 34)%N then String backslash (String dquote "")
  else if (n =? 92)%N then String backslash (String backslash "")
  else String c "".

Fixpoint quote_body (s : string) : string :=
  match s with
  | EmptyString => ""
  | String c s' => quote_code_unit c +:+ quote_body s'
  end.

Definition QuoteJSONString (s : string) : string :=
  String dquote (quote_body s +:+ String dquote "").

(** Number::toString on an integral Number of magnitude up to [2^53]: its
    decimal digits, with a sign when negative. (Exponent notation starts at
    [1e21], far above the range of [JNum].) *)
Definition NumberToString (z : Z) : string :=
  NilZero.string_of_int (Z.to_int z).

Definition circular_error : JsError :=
  mkError "TypeError" "Converting circular structure to JSON".
Definition bigint_error : JsError :=
  mkError "TypeError" "Do not know how to serialize a BigInt".

Section Lists.
Variable ser : JsValue -> Completion (option string).

(** SerializeJSONArray: a hole for [undefined] is written as [null]. *)
Fixpoint array_items (l : list JsValue) : Completion (list string) :=
  match l with
  | [] => Normal []
  | x :: l' =>
      match ser x with
      | Throw e => Throw e
      | Normal o =>
          match array_items l' with
          | Throw e => Throw e
          | Normal ss => Normal (default "null" o :: ss)
          end
      end
  end.

(** SerializeJSONObject: a property whose value serializes to
    [undefined] is left out. *)
Fixpoint object_members (l : list (string * JsValue))
  : Completion (list string) :=
  match l with
  | [] => Normal []
  | (k, x) :: l' =>
      match ser x with
      | Throw e => Throw e
      | Normal o =>
          match object_members l' with
          | Throw e => Throw e
          | Normal ss =>
              Normal match o with
                     | Some s => (QuoteJSONString k +:+ ":" +:+ s) :: ss
                     | None => ss
                     end
          end
      end
  end.
End Lists.

Fixpoint SerializeJSONProperty (v : JsValue) : Completion (option string) :=
  match v with
  | JUndefined | JFunction => Normal None
  | JNull => Normal (Some "null")
  | JBool b => Normal (Some (if b then "true" else "false"))
  | JNum z => Normal (Some (NumberToString z))
  | JBigInt _ => Throw bigint_error
  | JCircular => Throw circular_error
  | JStr s => Normal (Some (QuoteJSONString s))
  | JArr vs =>
      match array_items SerializeJSONProperty vs with
      | Throw e => Throw e
      | Normal ss => Normal (Some ("[" +:+ String.concat "," ss +:+ "]"))
      end
  | JObj fs =>
      match object_members SerializeJSONProperty fs with
      | Throw e => Throw e
      | Normal ss => Normal (Some ("{" +:+ String.concat "," ss +:+ "}"))
      end
  end.

(** [JSON.stringify(value)] with no replacer and no indentation. *)
Definition stringify (v : JsValue) : Completion (option string) :=
  SerializeJSONProperty v.

End JSON.

(** ** The optimizer's cache *)

Module PerformanceOptimizer.
Import Js.

(** A [Response], as far as the cache looks at it. *)
Record Response := mkResponse { status : Z; body : string }.

(** The [ok] getter of the Fetch standard: the status is in 200..299. *)
Definition ok (r : Response) : bool :=
  (200 <=? status r) && (status r <=? 299).

(** [response.clone()]: an independent copy with the same content. *)
Definition clone (r : Response) : Response := r.

(** The object literal stored by [this.cache.set]. *)
Record CacheEntry := mkEntry { response : Response; timestamp : Z; ttl : Z }.

(** How the awaited [originalFetch(url, options)] settles. *)
Inductive Settled :=
| Resolved (r : Response)
| Rejected (e : JsError).

(** What one call of the wrapper sees of the outside world: the clock when
    the cache is checked, the transport, and the clock when the response has
    arrived. *)
Record Env := mkEnv {
  now_check : Z;
  originalFetch : string -> JsValue -> Settled;
  now_store : Z
}.

(** What one call leaves behind: its completion, the cache, and the
    requests that went to [originalFetch]. *)
Record Outcome := mkOutcome {
  result : Completion Response;
  cache_after : gmap string CacheEntry;
  network : list (string * JsValue)
}.

Definition cacheableExtensions : list string :=
  [".json"; ".kml"; ".jpg"; ".jpeg"; ".png"; ".css"; ".js"].

Definition shouldCache (url : string) : bool :=
  existsb (fun ext => includes url ext) cacheableExtensions
  || includes url "weather"
  || includes url "api".

Definition getCacheTTL (url : string) : Z :=
  if includes url "weather" then 10 * 60 * 1000
  else if includes url ".kml" then 60 * 60 * 1000
  else if includes url ".jpg" || includes url ".png" then 24 * 60 * 60 * 1000
  else 30 * 60 * 1000.

(** [this.cache.has(key)] *)
Definition has (cache : gmap string CacheEntry) (key : string) : bool :=
  match cache !! key with Some _ => true | None => false end.

Definition isCacheValid (cache : gmap string CacheEntry) (cacheKey : string)
    (now : Z) : bool :=
  match cache !! cacheKey with
  | Some cached => now - timestamp cached <? ttl cached
  | None => false
  end.

(** The template literal of the first line of the wrapper; [options] has
    already been defaulted. An [undefined] result of [JSON.stringify] is
    interpolated as the text [undefined]. *)
Definition cacheKey (url : string) (options : JsValue) : Completion string :=
  match JSON.stringify options with
  | Throw e => Throw e
  | Normal json => Normal (url +:+ "_" +:+ default "undefined" json)
  end.

(** The parameter default [options = {}]. *)
Definition defaulted (options : JsValue) : JsValue :=
  match options with
  | JUndefined => JObj []
  | _ => options
  end.

(** The rest of the wrapper once [originalFetch] has settled: the [try]
    body after the [await], and the [catch]. It runs on the cache as it is
    at that moment. *)
Definition settle (cache : gmap string CacheEntry) (url key : string)
    (s : Settled) (now : Z) : Completion Response * gmap string CacheEntry :=
  match s with
  | Resolved r =>
      if ok r && shouldCache url then
        (Normal r,
         <[key := mkEntry (clone r) now (getCacheTTL url)]> cache)
      else (Normal r, cache)
  | Rejected error =>
      match cache !! key with
      | Some cached => (Normal (clone (response cached)), cache)
      | None => (Throw error, cache)
      end
  end.

(** The function that [implementResourceCaching] installs as
    [window.fetch], run without another call in between. *)
Definition fetch (env : Env) (cache : gmap string CacheEntry)
    (url : string) (options : JsValue) : Outcome :=
  let options := defaulted options in
  match cacheKey url options with
  | Throw e => mkOutcome (Throw e) cache []
  | Normal key =>
      if has cache key && isCacheValid cache key (now_check env) then
        match cache !! key with
        | Some cached => mkOutcome (Normal (clone (response cached))) cache []
        | None =>
            mkOutcome
              (Throw (mkError "TypeError" "Cannot read properties of undefined"))
              cache []
        end
      else
        let '(res, cache') :=
          settle cache url key (originalFetch env url options) (now_store env)
        in mkOutcome res cache' [(url, options)]
  end.

(** The loop of [optimizeMemory] over [this.cache.entries()]. *)
Definition optimizeMemory (now : Z) (cache : gmap string CacheEntry)
    : gmap string CacheEntry :=
  map_fold (fun key value acc =>
              if now - timestamp value >? ttl value then delete key acc
              else acc)
           cache cache.

(** The caches the optimizer can hold: empty at construction, then changed
    by calls of the wrapper, by continuations of calls that were waiting for
    the network, and by sweeps. *)
Inductive reachable : gmap string CacheEntry -> Prop :=
| reach_new : reachable ∅
| reach_fetch env c url options :
    reachable c -> reachable (cache_after (fetch env c url options))
| reach_settle c url options key s now :
    reachable c ->
    cacheKey url (defaulted options) = Normal key ->
    reachable (snd (settle c url key s now))
| reach_sweep now c :
    reachable c -> reachable (optimizeMemory now c).

End PerformanceOptimizer.

(** ** A scanner for JSON texts

    A text produced by [JSON.stringify] is read with a three-state scanner
    that knows whether it is inside a string literal. Outside a literal no
    backslash and no underscore occurs. This is what keeps the separator of
    the cache key unambiguous. *)

Module Scanner.
Import Js JSON.

Inductive Mode := Outside | Inside | Escaped.

Definition step (m : Mode) (c : ascii) : option Mode :=
  match m with
  | Outside =>
      if Ascii.eqb c dquote then Some Inside
      else if Ascii.eqb c backslash || Ascii.eqb c underscore then None
      else Some Outside
  | Inside =>
      if Ascii.eqb c dquote then Some Outside
      else if Ascii.eqb c backslash then Some Escaped
      else Some Inside
  | Escaped => Some Inside
  end.

Fixpoint scan (m : Mode) (s : string) : option Mode :=
  match s with
  | EmptyString => Some m
  | String c s' =>
      match step m c with
      | Some m' => scan m' s'
      | None => None
      end
  end.

(** The text is a sequence of complete tokens. *)
Definition balanced (s : string) : Prop := scan Outside s = Some Outside.

Definition opposite (m1 m2 : Mode) : Prop :=
  (m1 = Outside /\ m2 = Inside) \/ (m1 = Inside /\ m2 = Outside).

Definition balanced_result (v : JsValue) : Prop :=
  forall o, SerializeJSONProperty v = Normal o ->
            balanced (default "undefined" o).

End Scanner.

(** ** Vocabulary of the specification *)

Module Vocabulary.
Import Js PerformanceOptimizer.

(** The marker strings that make a resource cacheable. *)
Definition markers : list string := cacheableExtensions ++ ["weather"; "api"].

(** An entry is fresh iff [now - storedAt < timeToLive]. *)
Definition fresh (cache : gmap string CacheEntry) (key : string) (now : Z)
    : Prop :=
  exists e, cache !! key = Some e /\ now - timestamp e < ttl e.

(** Stale in the sense of the sweep of the specification. *)
Definition expired (e : CacheEntry) (now : Z) : Prop :=
  now - timestamp e >= ttl e.

Definition minutes (n : Z) : Z := n * 60 * 1000.
Definition hours (n : Z) : Z := n * 60 * 60 * 1000.

(** The properties of an object that [JSON.stringify] writes: those whose
    value is neither [undefined] nor a function. *)
Definition omitted (v : JsValue) : bool :=
  match v with
  | JUndefined | JFunction => true
  | _ => false
  end.

Definition written (fs : list (string * JsValue)) : list (string * JsValue) :=
  List.filter (fun kv => negb (omitted (snd kv))) fs.

(** Every key of the cache was computed for a cacheable resource. *)
Definition keys_of_cacheable (cache : gmap string CacheEntry) : Prop :=
  forall k, is_Some (cache !! k) ->
  exists url options,
    shouldCache url = true /\ cacheKey url (defaulted options) = Normal k.

End Vocabulary.

(** ** Scenarios *)

Module Scenarios.
Import Js JSON PerformanceOptimizer Vocabulary.

Definition temp72 : Response := mkResponse 200 "{temp:72}".
Definition notFound : Response := mkResponse 404 "Not Found".
Definition offline : JsError := mkError "TypeError" "Failed to fetch".

Definition online (r : Response) (check store : Z) : Env :=
  mkEnv check (fun _ _ => Resolved r) store.
Definition outage (check : Z) : Env :=
  mkEnv check (fun _ _ => Rejected offline) check.

(** The cache after [weather/today.json] was fetched at time 0. *)
Definition weatherCache : gmap string CacheEntry :=
  cache_after (fetch (online temp72 0 0) ∅ "weather/today.json" JUndefined).

(** Options that [JSON.stringify] cannot serialize: a BigInt among the
    headers. *)
Definition bigIntOptions : JsValue :=
  JObj [("method", JStr "GET"); ("headers", JObj [("X-Trail", JBigInt 7)])].

(** An entry whose age equals its time to live. *)
Definition boundaryCache : gmap string CacheEntry :=
  {["weather/today.json_{}" := mkEntry temp72 0 (minutes 10)]}.

(** Two ways of writing one request. *)
Definition methodFirst : list (string * JsValue) :=
  [("method", JStr "POST"); ("body", JStr "ping")].
Definition bodyFirst : list (string * JsValue) :=
  [("body", JStr "ping"); ("method", JStr "POST")].

End Scenarios.

(** ** Invariants of the stored entries *)

Module Invariants.
Import Js PerformanceOptimizer.

(** The entry under [k] was stored by the wrapper: [k] is the key of a
    cacheable resource, the time to live is the one the policy gives that
    resource, and the stored response is [ok]. *)
Definition entry_of_policy (k : string) (e : CacheEntry) : Prop :=
  exists url options,
    shouldCache url = true /\
    cacheKey url (defaulted options) = Normal k /\
    ttl e = getCacheTTL url /\
    ok (response e) = true.

Definition entries_of_policy (cache : gmap string CacheEntry) : Prop :=
  forall k e, cache !! k = Some e -> entry_of_policy k e.

(** The four times to live of the policy, in milliseconds. *)
Definition policyTTLs : list Z := [600000; 3600000; 86400000; 1800000].

End Invariants.

(** ** Memory monitoring and recommendations *)

Module Monitoring.
Import Js PerformanceOptimizer.

(** A JavaScript number, as far as a comparison with an integer looks at
    it: the rational that a finite double denotes, an infinity, or NaN. *)
Inductive JsNumber :=
| Finite (q : QArith_base.Q)
| Infinite (positive : bool)
| NaN.

(** [x > n] for an integer literal [n]. *)
Definition gt (x : JsNumber) (n : Z) : bool :=
  match x with
  | Finite q => negb (QArith_base.Qle_bool q (QArith_base.inject_Z n))
  | Infinite positive => positive
  | NaN => false
  end.

(** [this.metrics] *)
Record Metrics := mkMetrics {
  loadTime : JsNumber;
  renderTime : JsNumber;
  interactionTime : JsNumber;
  memoryUsage : JsNumber
}.

(** The two fields of the optimizer: [this.metrics] and [this.cache]. *)
Record Optimizer := mkOptimizer {
  metrics : Metrics;
  cache : gmap string CacheEntry
}.

Definition zero : JsNumber := Finite (QArith_base.inject_Z 0).

(** The constructor, before [init] installs the wrapper. *)
Definition construct : Optimizer :=
  mkOptimizer (mkMetrics zero zero zero zero) ∅.

(** The callback that [addPerformanceMonitoring] hands to [setInterval].
    [usedJSHeapSize] is a whole number of bytes below 2^53, for which the
    two divisions by 1024 are exact. *)
Definition memoryTick (usedJSHeapSize now : Z) (this : Optimizer)
    : Optimizer :=
  let usage := Finite (QArith_base.Qmake usedJSHeapSize (1024 * 1024)) in
  let m := metrics this in
  let this :=
    mkOptimizer (mkMetrics (loadTime m) (renderTime m) (interactionTime m)
                           usage)
                (cache this) in
  if gt (memoryUsage (metrics this)) 50
  then mkOptimizer (metrics this) (optimizeMemory now (cache this))
  else this.

Definition loadAdvice : string :=
  "Consider optimizing image sizes and implementing lazy loading".
Definition memoryAdvice : string :=
  "Monitor memory usage and implement cleanup routines".
Definition cacheAdvice : string :=
  "Implement cache size limits and LRU eviction".

Definition getPerformanceRecommendations (this : Optimizer) : list string :=
  let recommendations := [] in
  let recommendations :=
    if gt (loadTime (metrics this)) 3000
    then recommendations ++ [loadAdvice] else recommendations in
  let recommendations :=
    if gt (memoryUsage (metrics this)) 30
    then recommendations ++ [memoryAdvice] else recommendations in
  let recommendations :=
    if (100 <? Z.of_nat (size (cache this)))
    then recommendations ++ [cacheAdvice] else recommendations in
  recommendations.

(** What happens to an optimizer: a call of the wrapper, a sweep, or a tick
    of the memory monitor. *)
Inductive Event :=
| Call (env : Env) (url : string) (options : JsValue)
| Sweep (now : Z)
| Tick (usedJSHeapSize now : Z).

Definition occur (this : Optimizer) (ev : Event) : Optimizer :=
  match ev with
  | Call env url options =>
      mkOptimizer (metrics this)
                  (cache_after (fetch env (cache this) url options))
  | Sweep now => mkOptimizer (metrics this) (optimizeMemory now (cache this))
  | Tick usedJSHeapSize now => memoryTick usedJSHeapSize now this
  end.

Definition is_call (ev : Event) : bool :=
  match ev with Call _ _ _ => true | _ => false end.

End Monitoring.

(** ** The wording of the specification on markers *)

Module SpecWording.
Import Js PerformanceOptimizer.

(** [String.prototype.endsWith] *)
Fixpoint endsWith (s suffix : string) : bool :=
  String.eqb s suffix ||
  match s with
  | EmptyString => false
  | String _ s' => endsWith s' suffix
  end.

(** A resource identifier as the specification describes one that lacks a
    cacheable marker: its file extension is none of the cacheable
    extensions, and neither [weather] nor [api] occurs in it. *)
Definition spec_lacks_marker (url : string) : Prop :=
  Forall (fun ext => endsWith url ext = false)
         [".json"; ".kml"; ".jpg"; ".jpeg"; ".png"; ".css"; ".js"] /\
  includes url "weather" = false /\
  includes url "api" = false.

End SpecWording.

(** * Facts about strings *)

Module StringFacts.
Import Js.

Lemma append_nil_l (b : string) : "" +:+ b = b.
Proof. reflexivity. Qed.

Lemma append_cons (x : ascii) (a b : string) :
  String x a +:+ b = String x (a +:+ b).
Proof. reflexivity. Qed.

Lemma append_assoc (a b c : string) : (a +:+ b) +:+ c = a +:+ b +:+ c.
Proof.
  induction a as [|x a IH]; [reflexivity|]. rewrite !append_cons. now f_equal.
Qed.

Lemma append_nil_r (a : string) : a +:+ "" = a.
Proof.
  induction a as [|x a IH]; [reflexivity|]. rewrite append_cons. now f_equal.
Qed.

Lemma prefix_append (a b : string) : String.prefix a (a +:+ b) = true.
Proof.
  induction a as [|x a IH].
  - now destruct b.
  - rewrite append_cons. simpl. destruct (ascii_dec x x); [exact IH | congruence].
Qed.

Lemma prefix_inv (a s : string) :
  String.prefix a s = true -> exists b, s = a +:+ b.
Proof.
  revert a. induction s as [|y s IH]; intros [|x a]; simpl; try discriminate.
  - now exists "".
  - now exists (String y s).
  - destruct (ascii_dec x y) as [->|]; [|discriminate].
    intros H. destruct (IH _ H) as [b ->]. now exists b.
Qed.

Lemma includes_unfold (s search : string) :
  includes s search =
  String.prefix search s ||
  match s with EmptyString => false | String _ s' => includes s' search end.
Proof. now destruct s. Qed.

Lemma includes_iff (s search : string) :
  includes s search = true <->
  exists pre post, s = pre +:+ search +:+ post.
Proof.
  split.
  - induction s as [|y s IH]; rewrite includes_unfold;
      intros [H|H]%orb_true_iff; try discriminate.
    + destruct (prefix_inv _ _ H) as [b ->]. now exists "", b.
    + destruct (prefix_inv _ _ H) as [b ->]. now exists "", b.
    + destruct (IH H) as (pre & post & ->). now exists (String y pre), post.
  - intros (pre & post & ->). induction pre as [|x pre IH].
    + rewrite includes_unfold, append_nil_l. now rewrite prefix_append.
    + rewrite includes_unfold, append_cons, IH. apply orb_true_r.
Qed.

(** A text containing [search] still contains it inside a longer text. *)
Lemma includes_append (a b c search : string) :
  includes b search = true -> includes (a +:+ b +:+ c) search = true.
Proof.
  rewrite !includes_iff. intros (pre & post & ->).
  exists (a +:+ pre), (post +:+ c). now rewrite !append_assoc.
Qed.

Lemma append_eq_append (a b a' b' : string) :
  a +:+ b = a' +:+ b' ->
  (exists d, a = a' +:+ d /\ b' = d +:+ b) \/
  (exists d, a' = a +:+ d /\ b = d +:+ b').
Proof.
  revert a'. induction a as [|x a IH]; intros [|x' a'];
    rewrite ?append_cons, ?append_nil_l; intros H.
  - left. now exists "".
  - right. now exists (String x' a').
  - left. now exists (String x a).
  - injection H as -> H. destruct (IH _ H) as [(d & -> & ->)|(d & -> & ->)];
      [left | right]; now exists d.
Qed.

End StringFacts.

(** * The lexical shape of JSON texts *)

Module Lexis.
Import Js JSON StringFacts Scanner.

Lemma scan_append (m : Mode) (a b : string) :
  scan m (a +:+ b) =
  match scan m a with Some m' => scan m' b | None => None end.
Proof.
  revert m. induction a as [|x a IH]; intros m; [reflexivity|].
  rewrite append_cons. simpl. destruct (step m x); [apply IH | reflexivity].
Qed.

Lemma balanced_append (a b : string) :
  balanced a -> balanced b -> balanced (a +:+ b).
Proof. unfold balanced. intros Ha Hb. now rewrite scan_append, Ha. Qed.

Lemma scan_quote_code_unit (c : ascii) :
  scan Inside (quote_code_unit c) = Some Inside.
Proof. destruct c as [[] [] [] [] [] [] [] []]; reflexivity. Qed.

Lemma scan_quote_body (s : string) : scan Inside (quote_body s) = Some Inside.
Proof.
  induction s as [|c s IH]; [reflexivity|]. simpl.
  now rewrite scan_append, scan_quote_code_unit.
Qed.

Lemma balanced_QuoteJSONString (s : string) : balanced (QuoteJSONString s).
Proof.
  unfold balanced, QuoteJSONString. simpl.
  now rewrite scan_append, scan_quote_body.
Qed.

Lemma balanced_digits (d : Decimal.uint) :
  balanced (NilEmpty.string_of_uint d).
Proof. unfold balanced. induction d; simpl; auto. Qed.

Lemma balanced_NumberToString (z : Z) : balanced (NumberToString z).
Proof.
  unfold NumberToString.
  destruct (Z.to_int z) as [d|d]; simpl;
    try change (balanced (NilZero.string_of_uint d));
    destruct d; try reflexivity; apply balanced_digits.
Qed.

Lemma balanced_concat (ss : list string) :
  Forall balanced ss -> balanced (String.concat "," ss).
Proof.
  induction 1 as [|s ss Hs Hss IH]; [reflexivity|]. simpl.
  destruct ss as [|s' ss]; [exact Hs|].
  apply balanced_append; [exact Hs|].
  apply (balanced_append ","); [reflexivity | exact IH].
Qed.

(** Induction over values, with the hypothesis for every element of an
    array and every property value of an object. *)
Lemma JsValue_nested_ind (P : JsValue -> Prop) :
  P JUndefined -> P JNull -> (forall b, P (JBool b)) ->
  (forall z, P (JNum z)) -> (forall z, P (JBigInt z)) ->
  (forall s, P (JStr s)) -> P JFunction ->
  (forall vs, Forall P vs -> P (JArr vs)) ->
  (forall fs, Forall (fun kv => P (snd kv)) fs -> P (JObj fs)) ->
  P JCircular ->
  forall v, P v.
Proof.
  intros Hu Hn Hb Hz Hbig Hs Hf Ha Ho Hc. fix IH 1.
  intros [ | | b | z | z | s | | vs | fs | ];
    [exact Hu | exact Hn | apply Hb | apply Hz | apply Hbig | apply Hs
    | exact Hf | | | exact Hc].
  - apply Ha. induction vs as [|x vs IHvs]; constructor; [apply IH | exact IHvs].
  - apply Ho. induction fs as [|[k x] fs IHfs]; constructor;
      [apply IH | exact IHfs].
Qed.

Lemma array_items_balanced (vs : list JsValue) (ss : list string) :
  Forall balanced_result vs ->
  array_items SerializeJSONProperty vs = Normal ss ->
  Forall balanced ss.
Proof.
  intros Hvs. revert ss. induction Hvs as [|x vs Hx _ IH]; intros ss; simpl.
  - intros [= <-]. constructor.
  - destruct (SerializeJSONProperty x) as [o|] eqn:Ex; [|discriminate].
    destruct (array_items SerializeJSONProperty vs) as [ss'|]; [|discriminate].
    intros [= <-]. constructor; [|now apply IH].
    destruct o as [t|]; [exact (Hx _ Ex) | reflexivity].
Qed.

Lemma object_members_balanced (fs : list (string * JsValue))
    (ss : list string) :
  Forall (fun kv => balanced_result (snd kv)) fs ->
  object_members SerializeJSONProperty fs = Normal ss ->
  Forall balanced ss.
Proof.
  intros Hfs. revert ss.
  induction Hfs as [|[k x] fs Hx _ IH]; intros ss; simpl.
  - intros [= <-]. constructor.
  - destruct (SerializeJSONProperty x) as [o|] eqn:Ex; [|discriminate].
    destruct (object_members SerializeJSONProperty fs) as [ss'|];
      [|discriminate].
    intros [= <-]. destruct o as [t|]; [|now apply IH].
    constructor; [|now apply IH].
    apply balanced_append; [apply balanced_QuoteJSONString|].
    apply (balanced_append ":"); [reflexivity | exact (Hx _ Ex)].
Qed.

(** Every text that [JSON.stringify] returns is balanced, and so is the
    text [undefined] that stands for no result. *)
Lemma stringify_balanced (v : JsValue) (o : option string) :
  stringify v = Normal o -> balanced (default "undefined" o).
Proof.
  unfold stringify. revert o. change (balanced_result v).
  induction v as [ | | b | z | z | s | | vs IH | fs IH | ]
    using JsValue_nested_ind; intros o; simpl; try discriminate;
    try (intros [= <-]; simpl).
  - reflexivity.
  - reflexivity.
  - now destruct b.
  - apply balanced_NumberToString.
  - apply balanced_QuoteJSONString.
  - reflexivity.
  - destruct (array_items SerializeJSONProperty vs) as [ss|] eqn:E;
      [|discriminate].
    intros [= <-]. simpl. apply (balanced_append "["); [reflexivity|].
    apply balanced_append; [|reflexivity].
    apply balanced_concat. eapply array_items_balanced; eauto.
  - destruct (object_members SerializeJSONProperty fs) as [ss|] eqn:E;
      [|discriminate].
    intros [= <-]. simpl. apply (balanced_append "{"); [reflexivity|].
    apply balanced_append; [|reflexivity].
    apply balanced_concat. eapply object_members_balanced; eauto.
Qed.

(** Two scans of one text that start in opposite modes stay opposite. *)
Lemma scan_opposite (s : string) (m1 m2 a b : Mode) :
  opposite m1 m2 -> scan m1 s = Some a -> scan m2 s = Some b -> opposite a b.
Proof.
  revert m1 m2. induction s as [|c s IH]; intros m1 m2 Hop; simpl.
  - now intros [= <-] [= <-].
  - destruct Hop as [[-> ->]|[-> ->]]; simpl;
      destruct (Ascii.eqb c dquote);
      try (destruct (Ascii.eqb c backslash); simpl; try discriminate);
      try (destruct (Ascii.eqb c underscore); simpl; try discriminate);
      apply IH; unfold opposite; auto.
Qed.

(** A balanced text has no balanced proper suffix that starts right after
    an underscore. *)
Lemma balanced_no_suffix_after_underscore (p j' : string) :
  balanced (p +:+ "_" +:+ j') -> balanced j' -> False.
Proof.
  unfold balanced. rewrite scan_append.
  destruct (scan Outside p) as [m|]; [|discriminate].
  change ("_" +:+ j') with (String underscore j').
  change (scan m (String underscore j')) with
    (match step m underscore with Some m' => scan m' j' | None => None end).
  assert (Hin : forall m', step m underscore = Some m' -> m' = Inside).
  { destruct m; intros m' Hm; vm_compute in Hm; congruence. }
  destruct (step m underscore) as [m'|]; [|discriminate].
  rewrite (Hin m' eq_refl). intros H1 H2.
  destruct (scan_opposite j' Outside Inside _ _ (or_introl (conj eq_refl eq_refl)) H2 H1)
    as [[_ ?]|[? _]]; discriminate.
Qed.

End Lexis.

(** * Properties of the cache *)

Module CacheProperties.
Import Js JSON PerformanceOptimizer Scanner Vocabulary StringFacts Lexis.

(** ** Classification *)

Lemma shouldCache_iff (url : string) :
  shouldCache url = true <->
  exists m, In m markers /\ includes url m = true.
Proof.
  unfold shouldCache, markers. rewrite !orb_true_iff, existsb_exists. split.
  - intros [[(m & Hm & H)|H]|H].
    + exists m. split; [apply in_or_app; now left | exact H].
    + exists "weather". split; [apply in_or_app; right; simpl; auto | exact H].
    + exists "api". split; [apply in_or_app; right; simpl; auto | exact H].
  - intros (m & [Hm|Hm]%in_app_or & H).
    + left. left. now exists m.
    + destruct Hm as [<-|[<-|[]]]; auto.
Qed.

Lemma shouldCache_false_iff (url : string) :
  shouldCache url = false <->
  Forall (fun m => includes url m = false) markers.
Proof.
  rewrite Forall_forall. split.
  - intros H m Hm. destruct (includes url m) eqn:E; [|reflexivity].
    rewrite <- H. symmetry. apply shouldCache_iff. exists m.
    split; [now apply list_elem_of_In | exact E].
  - intros H. destruct (shouldCache url) eqn:E; [|reflexivity].
    apply shouldCache_iff in E as (m & Hm & E).
    rewrite (H m) in E; [discriminate | now apply list_elem_of_In].
Qed.

(** A resource whose identifier extends a cacheable one is cacheable. *)
Lemma shouldCache_append (url d : string) :
  shouldCache url = true -> shouldCache (url +:+ d) = true.
Proof.
  rewrite !shouldCache_iff. intros (m & Hm & H). exists m. split; [exact Hm|].
  now apply (includes_append "" url d).
Qed.

(** The policy of [getCacheTTL], first match first. *)
Lemma getCacheTTL_policy (url : string) :
  (includes url "weather" = true -> getCacheTTL url = minutes 10) /\
  (includes url "weather" = false -> includes url ".kml" = true ->
   getCacheTTL url = minutes 60) /\
  (includes url "weather" = false -> includes url ".kml" = false ->
   includes url ".jpg" = true \/ includes url ".png" = true ->
   getCacheTTL url = hours 24) /\
  (includes url "weather" = false -> includes url ".kml" = false ->
   includes url ".jpg" = false -> includes url ".png" = false ->
   getCacheTTL url = minutes 30).
Proof.
  unfold getCacheTTL.
  destruct (includes url "weather"), (includes url ".kml"),
    (includes url ".jpg"), (includes url ".png"); simpl;
    repeat split; intros; try reflexivity; try discriminate;
    try (destruct H1; discriminate).
Qed.

(** ** The key *)

(** Two requests with one key: the identifier of the second starts with
    the identifier of the first. *)
Lemma cacheKey_collision (u u' : string) (o o' : JsValue) (k : string) :
  cacheKey u o = Normal k -> cacheKey u' o' = Normal k ->
  exists d, u = u' +:+ d.
Proof.
  unfold cacheKey.
  destruct (stringify o) as [j|] eqn:Ej; [|discriminate].
  destruct (stringify o') as [j'|] eqn:Ej'; [|discriminate].
  apply stringify_balanced in Ej, Ej'.
  intros [= <-] [= H]. symmetry in H.
  apply append_eq_append in H as [(d & -> & _)|(d & -> & H)].
  - now exists d.
  - destruct d as [|c d].
    + exists "". now rewrite !append_nil_r.
    + exfalso. rewrite !append_cons, append_nil_l in H.
      injection H as <- H. rewrite H in Ej.
      exact (balanced_no_suffix_after_underscore _ _ Ej Ej').
Qed.

(** [JSON.stringify] throws nothing but its two TypeErrors. *)
Lemma stringify_throws (v : JsValue) (e : JsError) :
  stringify v = Throw e -> e = bigint_error \/ e = circular_error.
Proof.
  unfold stringify. revert e.
  induction v as [ | | b | z | z | s | | vs IH | fs IH | ]
    using JsValue_nested_ind; intros e; simpl; try discriminate.
  - intros [= <-]. now left.
  - destruct (array_items SerializeJSONProperty vs) as [ss|e'] eqn:E;
      [discriminate|]. intros [= <-]. clear -IH E.
    induction IH as [|x vs Hx _ IHvs]; simpl in E; [discriminate|].
    destruct (SerializeJSONProperty x) as [o|ex] eqn:Ex.
    + destruct (array_items SerializeJSONProperty vs); [discriminate|].
      injection E as <-. now apply IHvs.
    + injection E as <-. now apply Hx.
  - destruct (object_members SerializeJSONProperty fs) as [ss|e'] eqn:E;
      [discriminate|]. intros [= <-]. clear -IH E.
    induction IH as [|[k x] fs Hx _ IHfs]; simpl in E; [discriminate|].
    destruct (SerializeJSONProperty x) as [o|ex] eqn:Ex.
    + destruct (object_members SerializeJSONProperty fs); [discriminate|].
      injection E as <-. now apply IHfs.
    + injection E as <-. now apply Hx.
  - intros [= <-]. now right.
Qed.

(** ** The sweep *)

Lemma optimizeMemory_lookup (now : Z) (cache : gmap string CacheEntry)
    (k : string) :
  optimizeMemory now cache !! k =
  match cache !! k with
  | Some e => if now - timestamp e >? ttl e then None else Some e
  | None => None
  end.
Proof.
  unfold optimizeMemory.
  set (f := fun (key : string) (value : CacheEntry) acc =>
              if now - timestamp value >? ttl value then delete key acc
              else acc).
  enough (H : forall (b m : gmap string CacheEntry),
             map_fold f b m !! k =
             match m !! k with
             | Some e => if now - timestamp e >? ttl e then None else b !! k
             | None => b !! k
             end).
  { rewrite H. now destruct (cache !! k). }
  intros b m.
  apply (map_fold_weak_ind
           (fun r (m : gmap string CacheEntry) =>
              r !! k =
              match m !! k with
              | Some e => if now - timestamp e >? ttl e then None else b !! k
              | None => b !! k
              end)).
  - now rewrite lookup_empty.
  - intros i x m' r Hi IH. unfold f.
    destruct (decide (i = k)) as [->|Hne].
    + rewrite lookup_insert_eq. rewrite Hi in IH.
      destruct (now - timestamp x >? ttl x);
        [apply lookup_delete_eq | exact IH].
    + rewrite lookup_insert_ne by exact Hne.
      destruct (now - timestamp x >? ttl x);
        [rewrite lookup_delete_ne by exact Hne|]; exact IH.
Qed.

(** The sweep keeps exactly the entries that are not older than their
    time to live. *)
Lemma optimizeMemory_keeps (now : Z) (cache : gmap string CacheEntry)
    (k : string) (e : CacheEntry) :
  optimizeMemory now cache !! k = Some e <->
  cache !! k = Some e /\ now - timestamp e <= ttl e.
Proof.
  rewrite optimizeMemory_lookup. destruct (cache !! k) as [e'|].
  - destruct (Z.gtb_spec (now - timestamp e') (ttl e')).
    + split; [discriminate | intros [[= ->] ?]; lia].
    + split; [intros [= ->]; split; [reflexivity | lia] | now intros [? _]].
  - split; [discriminate | now intros [? _]].
Qed.

(** ** One call of the wrapper *)

Lemma fetch_unfold (env : Env) (cache : gmap string CacheEntry)
    (url : string) (options : JsValue) (key : string) :
  cacheKey url (defaulted options) = Normal key ->
  fetch env cache url options =
  let st := settle cache url key (originalFetch env url (defaulted options))
                   (now_store env) in
  let live := mkOutcome (fst st) (snd st) [(url, defaulted options)] in
  match cache !! key with
  | Some e =>
      if now_check env - timestamp e <? ttl e
      then mkOutcome (Normal (response e)) cache []
      else live
  | None => live
  end.
Proof.
  intros Hk. unfold fetch, has, isCacheValid. rewrite Hk. cbv zeta.
  destruct (settle cache url key _ _) as [res c'].
  destruct (cache !! key) as [e|]; simpl; [|reflexivity].
  now destruct (now_check env - timestamp e <? ttl e).
Qed.

(** What the continuation does to the cache: nothing, or one entry set for
    a cacheable resource. *)
Lemma settle_cache (cache : gmap string CacheEntry) (url key : string)
    (s : Settled) (now : Z) :
  snd (settle cache url key s now) = cache \/
  (shouldCache url = true /\
   exists r, s = Resolved r /\ ok r = true /\
     snd (settle cache url key s now) =
     <[key := mkEntry r now (getCacheTTL url)]> cache).
Proof.
  destruct s as [r|e]; simpl.
  - destruct (ok r) eqn:Hok, (shouldCache url) eqn:Hc; simpl; auto.
    right. split; [reflexivity|]. now exists r.
  - destruct (cache !! key); auto.
Qed.

Lemma fetch_cache_after (env : Env) (cache : gmap string CacheEntry)
    (url : string) (options : JsValue) :
  cache_after (fetch env cache url options) = cache \/
  exists key,
    cacheKey url (defaulted options) = Normal key /\
    cache_after (fetch env cache url options) =
    snd (settle cache url key (originalFetch env url (defaulted options))
                (now_store env)).
Proof.
  destruct (cacheKey url (defaulted options)) as [key|e] eqn:Hk.
  - rewrite (fetch_unfold _ _ _ _ _ Hk). cbv zeta.
    destruct (cache !! key) as [en|];
      [destruct (now_check env - timestamp en <? ttl en)|]; simpl;
      [now left | right; now exists key ..].
  - left. unfold fetch. now rewrite Hk.
Qed.

(** ** Caches that can arise *)

Lemma settle_keys (cache : gmap string CacheEntry) (url : string)
    (options : JsValue) (key : string) (s : Settled) (now : Z) :
  cacheKey url (defaulted options) = Normal key ->
  keys_of_cacheable cache ->
  keys_of_cacheable (snd (settle cache url key s now)).
Proof.
  intros Hk Hc.
  destruct (settle_cache cache url key s now) as [->|(Hu & r & _ & _ & ->)];
    [exact Hc|].
  intros k. destruct (decide (key = k)) as [<-|Hne].
  - intros _. now exists url, options.
  - rewrite lookup_insert_ne by exact Hne. apply Hc.
Qed.

Lemma reachable_keys (cache : gmap string CacheEntry) :
  reachable cache -> keys_of_cacheable cache.
Proof.
  induction 1 as [|env c url options _ IH|c url options key s now _ IH Hk
                 |now c _ IH].
  - intros k [e He]. now rewrite lookup_empty in He.
  - destruct (fetch_cache_after env c url options) as [->|(key & Hk & ->)];
      [exact IH | now apply (settle_keys c url options)].
  - now apply (settle_keys c url options).
  - intros k [e He]. apply optimizeMemory_keeps in He as [He _].
    apply IH. now exists e.
Qed.

(** No reachable cache holds an entry under the key of a resource that
    [shouldCache] turns down. *)
Lemma reachable_no_entry (cache : gmap string CacheEntry) (url : string)
    (options : JsValue) (key : string) :
  reachable cache -> shouldCache url = false ->
  cacheKey url options = Normal key -> cache !! key = None.
Proof.
  intros Hr Hu Hk. destruct (cache !! key) as [e|] eqn:E; [|reflexivity].
  destruct (reachable_keys _ Hr key) as (u' & o' & Hu' & Hk'); [now exists e|].
  destruct (cacheKey_collision _ _ _ _ _ Hk Hk') as [d ->].
  now rewrite (shouldCache_append _ d Hu') in Hu.
Qed.

(** A call for a resource that [shouldCache] turns down leaves any cache
    as it was. *)
Lemma fetch_uncacheable_keeps_cache (env : Env)
    (cache : gmap string CacheEntry) (url : string) (options : JsValue) :
  shouldCache url = false -> cache_after (fetch env cache url options) = cache.
Proof.
  intros Hu.
  destruct (fetch_cache_after env cache url options) as [H|(key & _ & ->)];
    [exact H|].
  destruct (settle_cache cache url key
              (originalFetch env url (defaulted options)) (now_store env))
    as [H|[Hc _]]; [exact H | congruence].
Qed.

Lemma settle_never_removes (cache : gmap string CacheEntry) (url key : string)
    (s : Settled) (now : Z) (k : string) :
  (is_Some (cache !! k) -> is_Some (snd (settle cache url key s now) !! k)) /\
  (k <> key -> snd (settle cache url key s now) !! k = cache !! k).
Proof.
  destruct (settle_cache cache url key s now) as [->|(_ & r & _ & _ & ->)];
    [now split|].
  split.
  - intros Hk. destruct (decide (key = k)) as [<-|Hne].
    + rewrite lookup_insert_eq. now eexists.
    + now rewrite lookup_insert_ne.
  - intros Hne. now rewrite lookup_insert_ne.
Qed.

(** Whether a call is answered from the cache depends on the options only
    through the key. *)
Lemma fetch_hit_same_key (env : Env) (cache : gmap string CacheEntry)
    (url : string) (o1 o2 : JsValue) :
  cacheKey url (defaulted o1) = cacheKey url (defaulted o2) ->
  (network (fetch env cache url o1) = [] <->
   network (fetch env cache url o2) = []) /\
  (network (fetch env cache url o1) = [] ->
   result (fetch env cache url o1) = result (fetch env cache url o2)).
Proof.
  intros Hk. destruct (cacheKey url (defaulted o1)) as [key|e] eqn:H1.
  - symmetry in Hk.
    rewrite (fetch_unfold _ _ _ _ _ H1), (fetch_unfold _ _ _ _ _ Hk).
    cbv zeta. destruct (cache !! key) as [en|];
      [destruct (now_check env - timestamp en <? ttl en)|]; simpl;
      (split; [split|]); try discriminate; reflexivity.
  - unfold fetch. rewrite H1, <- Hk. simpl. now split.
Qed.

Lemma object_members_written (fs : list (string * JsValue)) :
  object_members SerializeJSONProperty fs =
  object_members SerializeJSONProperty (written fs).
Proof.
  induction fs as [|[k x] fs IH]; [reflexivity|].
  assert (Hcons : forall l,
    object_members SerializeJSONProperty ((k, x) :: l) =
    match SerializeJSONProperty x with
    | Throw e => Throw e
    | Normal o =>
        match object_members SerializeJSONProperty l with
        | Throw e => Throw e
        | Normal ss =>
            Normal match o with
                   | Some s => (QuoteJSONString k +:+ ":" +:+ s) :: ss
                   | None => ss
                   end
        end
    end) by reflexivity.
  unfold written. cbn [List.filter snd]. fold (written fs).
  destruct (omitted x) eqn:Eo; cbn [negb].
  - rewrite Hcons, IH.
    destruct x; try discriminate; simpl;
      now destruct (object_members SerializeJSONProperty (written fs)).
  - now rewrite !Hcons, IH.
Qed.

Lemma fresh_dec (cache : gmap string CacheEntry) (key : string) (now : Z) :
  fresh cache key now <-> has cache key && isCacheValid cache key now = true.
Proof.
  unfold fresh, has, isCacheValid. destruct (cache !! key) as [e|]; simpl.
  - rewrite Z.ltb_lt. split; [now intros (e' & [= <-] & H) | now exists e].
  - split; [now intros (e' & [=] & _) | discriminate].
Qed.

End CacheProperties.

(** * The statements of the specification *)

Module Conformance.
Import Js JSON PerformanceOptimizer Vocabulary Scenarios SpecWording.
Import StringFacts CacheProperties.

(** C1: the transport is asked if and only if the cache holds no fresh entry
    under the key of the call, an entry being fresh while
    [now - timestamp < ttl]; a fresh entry is returned as it was stored,
    with no request to the transport and no change of the cache. *)
Theorem transport_iff_no_fresh_entry (env : Env)
    (cache : gmap string CacheEntry) (url : string) (options : JsValue)
    (key : string) :
  cacheKey url (defaulted options) = Normal key ->
  let out := fetch env cache url options in
  (network out = [(url, defaulted options)] <->
   ~ fresh cache key (now_check env)) /\
  (network out = [] <-> fresh cache key (now_check env)) /\
  (forall e, cache !! key = Some e ->
             now_check env - timestamp e < ttl e ->
             result out = Normal (response e) /\ network out = [] /\
             cache_after out = cache).
Proof.
  intros Hk out. subst out. rewrite (fetch_unfold _ _ _ _ _ Hk). cbv zeta.
  unfold fresh. destruct (cache !! key) as [e|].
  - destruct (Z.ltb_spec (now_check env - timestamp e) (ttl e)) as [Hlt|Hge];
      simpl.
    + split; [|split].
      * split; [discriminate | intros H; exfalso; apply H; now exists e].
      * split; [now exists e | reflexivity].
      * now intros e' [= <-] _.
    + split; [|split].
      * split; [intros _ (e' & [= <-] & H); lia | reflexivity].
      * split; [discriminate | intros (e' & [= <-] & H); lia].
      * intros e' [= <-] H. lia.
  - simpl. split; [|split].
    + split; [now intros _ (e' & [=] & _) | reflexivity].
    + split; [discriminate | now intros (e' & [=] & _)].
    + discriminate.
Qed.

Lemma transport_iff_no_fresh_entry_witness :
  let out := fetch (outage (minutes 9)) weatherCache "weather/today.json"
                   JUndefined in
  (network out = [("weather/today.json", JObj [])] <->
   ~ fresh weatherCache "weather/today.json_{}" (minutes 9)) /\
  (network out = [] <->
   fresh weatherCache "weather/today.json_{}" (minutes 9)) /\
  (forall e, weatherCache !! "weather/today.json_{}" = Some e ->
             minutes 9 - timestamp e < ttl e ->
             result out = Normal (response e) /\ network out = [] /\
             cache_after out = weatherCache).
Proof.
  apply (transport_iff_no_fresh_entry (outage (minutes 9)) weatherCache
           "weather/today.json" JUndefined "weather/today.json_{}").
  reflexivity.
Defined.

(** The weather scenario of the specification: stored with ten minutes to
    live, served without a request right away, requested again after
    eleven minutes. *)
Example weather_scenario :
  weatherCache !! "weather/today.json_{}" = Some (mkEntry temp72 0 (minutes 10))
  /\ network (fetch (outage 0) weatherCache "weather/today.json" JUndefined)
     = []
  /\ result (fetch (outage 0) weatherCache "weather/today.json" JUndefined)
     = Normal temp72
  /\ network (fetch (online temp72 (minutes 11) (minutes 11)) weatherCache
                    "weather/today.json" JUndefined)
     = [("weather/today.json", JObj [])].
Proof. now vm_compute. Qed.

(** C2: when the transport rejects, an entry stored under the key, fresh or
    stale, is returned in place of the failure; with no entry under the key
    the error of the transport is thrown as it is, after a single request.
    The cache is left as it was. *)
Theorem network_failure_falls_back_or_propagates (env : Env)
    (cache : gmap string CacheEntry) (url : string) (options : JsValue)
    (key : string) (error : JsError) :
  cacheKey url (defaulted options) = Normal key ->
  originalFetch env url (defaulted options) = Rejected error ->
  let out := fetch env cache url options in
  (forall e, cache !! key = Some e -> result out = Normal (response e)) /\
  (cache !! key = None ->
   result out = Throw error /\ network out = [(url, defaulted options)]) /\
  cache_after out = cache.
Proof.
  intros Hk Hnet out. subst out. rewrite (fetch_unfold _ _ _ _ _ Hk).
  cbv zeta. rewrite Hnet. simpl. destruct (cache !! key) as [e|].
  - destruct (now_check env - timestamp e <? ttl e); simpl;
      (split; [now intros e' [= <-] | split; [discriminate | reflexivity]]).
  - simpl. split; [discriminate | now split].
Qed.

Lemma network_failure_falls_back_or_propagates_witness :
  let out := fetch (outage (hours 2)) weatherCache "weather/today.json"
                   JUndefined in
  (forall e, weatherCache !! "weather/today.json_{}" = Some e ->
             result out = Normal (response e)) /\
  (weatherCache !! "weather/today.json_{}" = None ->
   result out = Throw offline /\
   network out = [("weather/today.json", JObj [])]) /\
  cache_after out = weatherCache.
Proof.
  apply (network_failure_falls_back_or_propagates (outage (hours 2))
           weatherCache "weather/today.json" JUndefined
           "weather/today.json_{}" offline); reflexivity.
Defined.

(** The two halves of C2 on concrete caches: a stale entry is served during
    an outage, and without an entry the error comes through. *)
Example stale_entry_served_during_outage :
  let out := fetch (outage (hours 2)) weatherCache "weather/today.json"
                   JUndefined in
  isCacheValid weatherCache "weather/today.json_{}" (hours 2) = false /\
  result out = Normal temp72 /\
  network out = [("weather/today.json", JObj [])].
Proof. vm_compute. auto. Qed.

Example no_entry_error_propagates :
  let out := fetch (outage 0) ∅ "weather/today.json" JUndefined in
  result out = Throw offline /\
  network out = [("weather/today.json", JObj [])].
Proof. vm_compute. auto. Qed.

(** C3, as the specification words it, fails: a response with an HTTP error
    status arrives without a transport failure for a cacheable resource, and
    nothing is stored. *)
Lemma error_status_is_not_stored :
  let out := fetch (online notFound 0 0) ∅ "trail/map.kml" JUndefined in
  shouldCache "trail/map.kml" = true /\
  network out = [("trail/map.kml", JObj [])] /\
  result out = Normal notFound /\
  cache_after out !! "trail/map.kml_{}" = None.
Proof. vm_compute. auto. Qed.

(** C3, amended: when the transport resolves, the live response is
    returned; it is stored under the key with [timestamp = now] and the
    TTL of the policy when the response is [ok] (status 200 to 299) and the
    resource is cacheable, and the cache is left unchanged when the response
    is not [ok] or the resource is not cacheable. *)
Theorem ok_response_is_stored (env : Env) (cache : gmap string CacheEntry)
    (url : string) (options : JsValue) (key : string) (r : Response) :
  cacheKey url (defaulted options) = Normal key ->
  network (fetch env cache url options) = [(url, defaulted options)] ->
  originalFetch env url (defaulted options) = Resolved r ->
  let out := fetch env cache url options in
  result out = Normal r /\
  (ok r = true -> shouldCache url = true ->
   cache_after out =
   <[key := mkEntry r (now_store env) (getCacheTTL url)]> cache) /\
  (ok r = false -> cache_after out = cache) /\
  (shouldCache url = false -> cache_after out = cache).
Proof.
  intros Hk Hcall Hnet out. subst out. revert Hcall.
  rewrite (fetch_unfold _ _ _ _ _ Hk). cbv zeta. rewrite Hnet.
  assert (Hlive :
    let st := settle cache url key (Resolved r) (now_store env) in
    fst st = Normal r /\
    (ok r = true -> shouldCache url = true ->
     snd st = <[key := mkEntry r (now_store env) (getCacheTTL url)]> cache) /\
    (ok r = false -> snd st = cache) /\
    (shouldCache url = false -> snd st = cache)).
  { simpl. destruct (ok r), (shouldCache url); simpl;
      repeat split; intros; try reflexivity; discriminate. }
  destruct (cache !! key) as [e|]; [|intros _; exact Hlive].
  destruct (now_check env - timestamp e <? ttl e);
    [discriminate | intros _; exact Hlive].
Qed.

Lemma ok_response_is_stored_witness :
  let env := online temp72 0 5 in
  let out := fetch env ∅ "weather/today.json" JUndefined in
  result out = Normal temp72 /\
  (ok temp72 = true -> shouldCache "weather/today.json" = true ->
   cache_after out =
   <["weather/today.json_{}" :=
       mkEntry temp72 5 (getCacheTTL "weather/today.json")]> ∅) /\
  (ok temp72 = false -> cache_after out = ∅) /\
  (shouldCache "weather/today.json" = false -> cache_after out = ∅).
Proof.
  apply (ok_response_is_stored (online temp72 0 5) ∅ "weather/today.json"
           JUndefined "weather/today.json_{}" temp72); reflexivity.
Defined.

(** C5: options that cannot be serialized make the call fail with the error
    of the serialization, a TypeError; no request goes to the transport, the
    cache is neither consulted nor changed, and no content of the cache
    turns the failure into a response. *)
Theorem unserializable_options_fail (env : Env)
    (cache : gmap string CacheEntry) (url : string) (options : JsValue)
    (e : JsError) :
  stringify (defaulted options) = Throw e ->
  let out := fetch env cache url options in
  result out = Throw e /\ name e = "TypeError" /\
  network out = [] /\ cache_after out = cache /\
  (forall env' cache', result (fetch env' cache' url options) = Throw e).
Proof.
  intros He out. subst out.
  assert (Hall : forall env' cache',
             fetch env' cache' url options = mkOutcome (Throw e) cache' []).
  { intros env' cache'. unfold fetch, cacheKey. now rewrite He. }
  rewrite Hall. simpl. repeat split.
  - now destruct (stringify_throws _ _ He) as [->| ->].
  - intros env' cache'. now rewrite Hall.
Qed.

Lemma unserializable_options_fail_witness :
  let out := fetch (outage (minutes 1)) weatherCache "weather/today.json"
                   bigIntOptions in
  result out = Throw bigint_error /\ name bigint_error = "TypeError" /\
  network out = [] /\ cache_after out = weatherCache /\
  (forall env' cache',
     result (fetch env' cache' "weather/today.json" bigIntOptions)
     = Throw bigint_error).
Proof.
  apply (unserializable_options_fail (outage (minutes 1)) weatherCache
           "weather/today.json" bigIntOptions bigint_error).
  reflexivity.
Defined.

(** C9: a call never removes an entry; it leaves every entry under another
    key than its own as it was, and when no key can be computed it leaves
    the whole cache as it was. Only the sweep removes entries. *)
Theorem fetch_never_removes (env : Env) (cache : gmap string CacheEntry)
    (url : string) (options : JsValue) :
  let out := fetch env cache url options in
  (forall k, is_Some (cache !! k) -> is_Some (cache_after out !! k)) /\
  (forall key k, cacheKey url (defaulted options) = Normal key -> k <> key ->
                 cache_after out !! k = cache !! k) /\
  (forall e, cacheKey url (defaulted options) = Throw e ->
             cache_after out = cache).
Proof.
  cbv zeta.
  destruct (fetch_cache_after env cache url options) as [->|(key & Hk & ->)].
  - repeat split; auto.
  - split; [|split].
    + intros k. apply settle_never_removes.
    + intros key' k Hk' Hne. rewrite Hk in Hk'. injection Hk' as ->.
      now apply settle_never_removes.
    + intros e He. now rewrite Hk in He.
Qed.

(** The sweep does remove: the weather entry is gone after eleven minutes. *)
Example sweep_removes :
  is_Some (weatherCache !! "weather/today.json_{}") /\
  optimizeMemory (minutes 11) weatherCache !! "weather/today.json_{}" = None.
Proof. split; [now eexists | reflexivity]. Qed.

(** C10: [shouldCache] is substring containment and nothing else. A
    resource is cacheable exactly when one of the nine strings [.json],
    [.kml], [.jpg], [.jpeg], [.png], [.css], [.js], [weather], [api] occurs
    somewhere in its identifier, whatever stands before and after it: the
    string need not be the file extension nor a word of its own. *)
Theorem shouldCache_is_substring_containment (url : string) :
  shouldCache url = true <->
  exists pre marker post,
    In marker [".json"; ".kml"; ".jpg"; ".jpeg"; ".png"; ".css"; ".js";
               "weather"; "api"] /\
    url = pre +:+ marker +:+ post.
Proof.
  rewrite shouldCache_iff. split.
  - intros (m & Hm & (pre & post & ->)%includes_iff). now exists pre, m, post.
  - intros (pre & m & post & Hm & ->). exists m. split; [exact Hm|].
    apply includes_iff. now exists pre, post.
Qed.

(** The examples of C10: a marker in a query parameter, inside a longer
    extension, and inside a longer word, each with the place it occurs at. *)
Example containment_examples :
  "export?name=.json&page=2" = "export?name=" +:+ ".json" +:+ "&page=2" /\
  shouldCache "export?name=.json&page=2" = true /\
  "notes.jsp" = "notes" +:+ ".js" +:+ "p" /\
  shouldCache "notes.jsp" = true /\
  "capital-of-the-trail.html" = "c" +:+ "api" +:+ "tal-of-the-trail.html" /\
  shouldCache "capital-of-the-trail.html" = true /\
  shouldCache "index.html" = false.
Proof. now vm_compute. Qed.

(** [.json] in a query parameter, [.js] in a longer extension, [api] inside
    a word: all cacheable. *)
Example markers_that_are_no_extension :
  shouldCache "export?name=.json&page=2" = true /\
  shouldCache "bundle.jsx.map" = true /\
  shouldCache "rapids.html" = true.
Proof. now vm_compute. Qed.

(** C4: the policy gives an image 24 hours, but a [.jpeg] image, which
    [shouldCache] accepts by its extension, falls through to the default of
    30 minutes: [getCacheTTL] looks for [.jpg] and [.png] only. *)
Theorem jpeg_image_gets_default_ttl :
  In ".jpeg" cacheableExtensions /\
  shouldCache "assets/summit.jpeg" = true /\
  includes "assets/summit.jpeg" "weather" = false /\
  includes "assets/summit.jpeg" ".kml" = false /\
  getCacheTTL "assets/summit.jpeg" = minutes 30 /\
  getCacheTTL "assets/summit.jpg" = hours 24 /\
  getCacheTTL "assets/summit.png" = hours 24.
Proof. vm_compute. tauto. Qed.

(** The cases of the policy that C4 and P6 name, on concrete resources. *)
Example ttl_classes :
  getCacheTTL "weather/today.json" = minutes 10 /\
  getCacheTTL "img/weather-icon.png" = minutes 10 /\
  getCacheTTL "trail/map.kml" = minutes 60 /\
  getCacheTTL "tracks/ridge.kml.png" = minutes 60 /\
  getCacheTTL "assets/queens_river_logo.png" = hours 24 /\
  getCacheTTL "css/styles.css" = minutes 30.
Proof. now vm_compute. Qed.

(** C7: an entry that is exactly as old as its time to live is expired
    ([now - timestamp >= ttl], and [isCacheValid] rejects it), yet the sweep
    leaves it in the cache: [optimizeMemory] compares with [>]. *)
Theorem sweep_keeps_entry_at_boundary :
  let e := mkEntry temp72 0 (minutes 10) in
  boundaryCache !! "weather/today.json_{}" = Some e /\
  expired e (minutes 10) /\
  isCacheValid boundaryCache "weather/today.json_{}" (minutes 10) = false /\
  optimizeMemory (minutes 10) boundaryCache !! "weather/today.json_{}"
  = Some e.
Proof.
  cbv zeta. repeat split; try reflexivity. unfold expired, minutes. simpl. lia.
Qed.

(** Away from the boundary the sweep and the specification agree. *)
Lemma sweep_away_from_boundary (now : Z) (cache : gmap string CacheEntry)
    (k : string) (e : CacheEntry) :
  cache !! k = Some e -> now - timestamp e <> ttl e ->
  (expired e now -> optimizeMemory now cache !! k = None) /\
  (~ expired e now -> optimizeMemory now cache !! k = Some e).
Proof.
  intros He Hne. unfold expired. rewrite optimizeMemory_lookup, He.
  destruct (Z.gtb_spec (now - timestamp e) (ttl e)); split; intros;
    try reflexivity; lia.
Qed.

(** C6, as the specification words it, fails: two option sets with the same
    fields in another order are serialized differently, get different keys,
    and the entry stored for one is no hit for the other. *)
Lemma field_order_changes_the_key :
  let cache :=
    cache_after (fetch (online temp72 0 0) ∅ "api/checkin" (JObj methodFirst))
  in
  methodFirst ≡ₚ bodyFirst /\
  stringify (JObj methodFirst) <> stringify (JObj bodyFirst) /\
  cacheKey "api/checkin" (JObj methodFirst)
  <> cacheKey "api/checkin" (JObj bodyFirst) /\
  network (fetch (outage 1) cache "api/checkin" (JObj methodFirst)) = [] /\
  network (fetch (outage 1) cache "api/checkin" (JObj bodyFirst))
  = [("api/checkin", JObj bodyFirst)].
Proof.
  cbv zeta. split; [apply perm_swap|].
  split; [vm_compute; discriminate|].
  split; [vm_compute; discriminate|].
  split; reflexivity.
Qed.

(** C6, amended: two option sets with the same written properties in the
    same order are serialized alike, get the same key, and a hit for one is
    a hit for the other, with the same response. *)
Theorem same_written_order_same_key (env : Env)
    (cache : gmap string CacheEntry) (url : string)
    (fs1 fs2 : list (string * JsValue)) :
  written fs1 = written fs2 ->
  stringify (JObj fs1) = stringify (JObj fs2) /\
  cacheKey url (JObj fs1) = cacheKey url (JObj fs2) /\
  (network (fetch env cache url (JObj fs1)) = [] <->
   network (fetch env cache url (JObj fs2)) = []) /\
  (network (fetch env cache url (JObj fs1)) = [] ->
   result (fetch env cache url (JObj fs1))
   = result (fetch env cache url (JObj fs2))).
Proof.
  intros Hw.
  assert (Hs : stringify (JObj fs1) = stringify (JObj fs2)).
  { unfold stringify. simpl.
    now rewrite (object_members_written fs1), (object_members_written fs2), Hw. }
  assert (Hk : cacheKey url (JObj fs1) = cacheKey url (JObj fs2)).
  { unfold cacheKey. now rewrite Hs. }
  split; [exact Hs|]. split; [exact Hk|].
  now apply fetch_hit_same_key.
Qed.

Lemma same_written_order_same_key_witness :
  let fs1 := [("method", JStr "POST"); ("signal", JUndefined);
              ("body", JStr "ping")] in
  let cache :=
    cache_after (fetch (online temp72 0 0) ∅ "api/checkin" (JObj methodFirst))
  in
  stringify (JObj fs1) = stringify (JObj methodFirst) /\
  cacheKey "api/checkin" (JObj fs1)
  = cacheKey "api/checkin" (JObj methodFirst) /\
  (network (fetch (outage 1) cache "api/checkin" (JObj fs1)) = [] <->
   network (fetch (outage 1) cache "api/checkin" (JObj methodFirst)) = []) /\
  (network (fetch (outage 1) cache "api/checkin" (JObj fs1)) = [] ->
   result (fetch (outage 1) cache "api/checkin" (JObj fs1))
   = result (fetch (outage 1) cache "api/checkin" (JObj methodFirst))).
Proof.
  apply (same_written_order_same_key (outage 1)
           (cache_after
              (fetch (online temp72 0 0) ∅ "api/checkin" (JObj methodFirst)))
           "api/checkin"
           [("method", JStr "POST"); ("signal", JUndefined);
            ("body", JStr "ping")]
           methodFirst).
  reflexivity.
Defined.

(** C8, as the specification words it, fails: [notes.jsp] has no cacheable
    file extension and contains neither [weather] nor [api], yet [.js]
    occurs in it, so a successful fetch is stored and the next call is a hit
    that never reaches the transport. *)
Lemma marker_inside_extension_is_cached :
  let stored :=
    cache_after (fetch (online temp72 0 0) ∅ "notes.jsp" JUndefined) in
  spec_lacks_marker "notes.jsp" /\
  stored !! "notes.jsp_{}" = Some (mkEntry temp72 0 (minutes 30)) /\
  network (fetch (outage (minutes 1)) stored "notes.jsp" JUndefined) = [] /\
  result (fetch (outage (minutes 1)) stored "notes.jsp" JUndefined)
  = Normal temp72.
Proof.
  cbv zeta. split; [|now vm_compute].
  split; [repeat constructor | split; reflexivity].
Qed.

(** C8, amended: a resource in whose identifier none of the nine marker
    strings occurs anywhere is never cached. In any cache the optimizer can
    hold, no entry is stored under its key; a call for it stores nothing,
    goes to the transport, and completes with what the transport gave,
    never with a stored response. *)
Theorem unmarked_resource_never_cached (env : Env)
    (cache : gmap string CacheEntry) (url : string) (options : JsValue)
    (key : string) :
  reachable cache ->
  Forall (fun m => includes url m = false)
         [".json"; ".kml"; ".jpg"; ".jpeg"; ".png"; ".css"; ".js";
          "weather"; "api"] ->
  cacheKey url (defaulted options) = Normal key ->
  let out := fetch env cache url options in
  cache !! key = None /\
  cache_after out = cache /\
  network out = [(url, defaulted options)] /\
  result out = match originalFetch env url (defaulted options) with
               | Resolved r => Normal r
               | Rejected e => Throw e
               end.
Proof.
  intros Hr Hm Hk out. subst out.
  change (Forall (fun m => includes url m = false) markers) in Hm.
  apply shouldCache_false_iff in Hm.
  pose proof (reachable_no_entry _ _ _ _ Hr Hm Hk) as Hnone.
  rewrite (fetch_unfold _ _ _ _ _ Hk). cbv zeta. rewrite Hnone.
  split; [reflexivity|]. unfold settle.
  destruct (originalFetch env url (defaulted options)) as [r|e].
  - rewrite Hm, andb_false_r. now simpl.
  - rewrite Hnone. now simpl.
Qed.

(** However often a resource without a marker is fetched, the cache stays
    as it was before the first call. *)
Lemma repeated_fetches_store_nothing (envs : list Env)
    (cache : gmap string CacheEntry) (url : string) (options : JsValue) :
  shouldCache url = false ->
  foldl (fun c env => cache_after (fetch env c url options)) cache envs
  = cache.
Proof.
  intros Hu. induction envs as [|env envs IH]; [reflexivity|]. simpl.
  now rewrite fetch_uncacheable_keeps_cache.
Qed.

Lemma unmarked_resource_never_cached_witness :
  let out := fetch (online temp72 (minutes 1) (minutes 1)) weatherCache
                   "index.html" JUndefined in
  weatherCache !! "index.html_{}" = None /\
  cache_after out = weatherCache /\
  network out = [("index.html", JObj [])] /\
  result out = Normal temp72.
Proof.
  apply (unmarked_resource_never_cached
           (online temp72 (minutes 1) (minutes 1)) weatherCache "index.html"
           JUndefined "index.html_{}").
  - exact (reach_fetch (online temp72 0 0) ∅ "weather/today.json" JUndefined
             reach_new).
  - repeat constructor.
  - reflexivity.
Defined.

End Conformance.

(** * How calls and sweeps compose *)

Module Composition.
Import Js JSON PerformanceOptimizer Scanner Vocabulary Invariants.
Import StringFacts Lexis CacheProperties.

Lemma append_self_nil (a b : string) : a = a +:+ b -> b = "".
Proof.
  induction a as [|x a IH]; [intros H; now rewrite append_nil_l in H|].
  rewrite append_cons. intros [= H]. exact (IH H).
Qed.

Lemma append_nil_inv (a b : string) : a +:+ b = "" -> a = "" /\ b = "".
Proof.
  destruct a; [rewrite append_nil_l; now intros -> |].
  rewrite append_cons. discriminate.
Qed.

Lemma append_inj_l (a b c : string) : a +:+ b = a +:+ c -> b = c.
Proof.
  induction a as [|x a IH]; [exact id|].
  rewrite !append_cons. intros [= H]. exact (IH H).
Qed.

(** No JSON text is the word [undefined]. *)
Lemma stringify_not_undefined (v : JsValue) :
  stringify v <> Normal (Some "undefined").
Proof.
  unfold stringify. destruct v as [ | | b | z | z | s | | vs | fs | ]; simpl;
    try discriminate.
  - now destruct b.
  - unfold NumberToString. destruct (Z.to_int z) as [d|d];
      [destruct d | ]; discriminate.
  - destruct (array_items SerializeJSONProperty vs); discriminate.
  - destruct (object_members SerializeJSONProperty fs); discriminate.
Qed.

(** The key tells the resource and the JSON text of the options. *)
Lemma cacheKey_inj (u u' : string) (o o' : JsValue) (k : string) :
  cacheKey u o = Normal k -> cacheKey u' o' = Normal k ->
  u = u' /\ stringify o = stringify o'.
Proof.
  intros H H'.
  destruct (cacheKey_collision _ _ _ _ _ H H') as [d Hd].
  destruct (cacheKey_collision _ _ _ _ _ H' H) as [d' Hd'].
  assert (Hu : u = u').
  { pose proof Hd as Hd0. rewrite Hd', append_assoc in Hd0.
    apply append_self_nil, append_nil_inv in Hd0 as [Hnil _].
    rewrite Hd', Hnil. now rewrite append_nil_r. }
  clear d d' Hd Hd'. subst u'. split; [reflexivity|].
  revert H H'. unfold cacheKey.
  destruct (stringify o) as [j|] eqn:Ej; [|discriminate].
  destruct (stringify o') as [j'|] eqn:Ej'; [|discriminate].
  intros [= <-] [= Hk]. apply append_inj_l, append_inj_l in Hk.
  destruct j as [t|], j' as [t'|]; simpl in Hk; subst; try reflexivity.
  - now apply stringify_not_undefined in Ej.
  - now apply stringify_not_undefined in Ej'.
Qed.

(** What a call completes with and whether it asks the transport depend on
    the cache only through the entry under its own key. *)
Lemma fetch_own_entry (env : Env) (c c' : gmap string CacheEntry)
    (url : string) (options : JsValue) (key : string) :
  cacheKey url (defaulted options) = Normal key ->
  c !! key = c' !! key ->
  result (fetch env c url options) = result (fetch env c' url options) /\
  network (fetch env c url options) = network (fetch env c' url options).
Proof.
  intros Hk Hc. rewrite !(fetch_unfold _ _ _ _ _ Hk). cbv zeta. rewrite <- Hc.
  assert (Hs : forall s now,
             fst (settle c url key s now) = fst (settle c' url key s now)).
  { intros [r|err] now; simpl.
    - now destruct (ok r && shouldCache url).
    - rewrite <- Hc. now destruct (c !! key). }
  destruct (c !! key) as [e|];
    [destruct (now_check env - timestamp e <? ttl e)|]; simpl; auto.
Qed.

Lemma settle_policy (cache : gmap string CacheEntry) (url : string)
    (options : JsValue) (key : string) (s : Settled) (now : Z) :
  cacheKey url (defaulted options) = Normal key ->
  entries_of_policy cache ->
  entries_of_policy (snd (settle cache url key s now)).
Proof.
  intros Hk Hc.
  destruct (settle_cache cache url key s now)
    as [->|(Hu & r & _ & Hok & ->)]; [exact Hc|].
  intros k e. destruct (decide (key = k)) as [<-|Hne].
  - rewrite lookup_insert_eq. intros [= <-]. now exists url, options.
  - rewrite lookup_insert_ne by exact Hne. apply Hc.
Qed.

Lemma reachable_policy (cache : gmap string CacheEntry) :
  reachable cache -> entries_of_policy cache.
Proof.
  induction 1 as [|env c url options _ IH|c url options key s now _ IH Hk
                 |now c _ IH].
  - intros k e He. now rewrite lookup_empty in He.
  - destruct (fetch_cache_after env c url options) as [->|(key & Hk & ->)];
      [exact IH | now apply (settle_policy c url options)].
  - now apply (settle_policy c url options).
  - intros k e He. apply optimizeMemory_keeps in He as [He _]. now apply IH.
Qed.

(** Where the completion of a call comes from. *)
Lemma fetch_provenance (env : Env) (cache : gmap string CacheEntry)
    (url : string) (options : JsValue) :
  match result (fetch env cache url options) with
  | Normal r =>
      (exists key e, cacheKey url (defaulted options) = Normal key /\
                     cache !! key = Some e /\ r = response e) \/
      (originalFetch env url (defaulted options) = Resolved r /\
       network (fetch env cache url options) = [(url, defaulted options)])
  | Throw err =>
      (stringify (defaulted options) = Throw err /\
       network (fetch env cache url options) = []) \/
      (originalFetch env url (defaulted options) = Rejected err /\
       network (fetch env cache url options) = [(url, defaulted options)] /\
       exists key, cacheKey url (defaulted options) = Normal key /\
                   cache !! key = None)
  end.
Proof.
  destruct (cacheKey url (defaulted options)) as [key|err] eqn:Hk.
  - rewrite (fetch_unfold _ _ _ _ _ Hk). cbv zeta.
    assert (Hlive :
      match fst (settle cache url key
                   (originalFetch env url (defaulted options)) (now_store env))
      with
      | Normal r =>
          (exists key0 e, Normal key = Normal key0 /\
                          cache !! key0 = Some e /\ r = response e) \/
          originalFetch env url (defaulted options) = Resolved r
      | Throw err =>
          originalFetch env url (defaulted options) = Rejected err /\
          cache !! key = None
      end).
    { destruct (originalFetch env url (defaulted options)) as [r|err]; simpl.
      - destruct (ok r && shouldCache url); simpl; now right.
      - destruct (cache !! key) as [e|] eqn:E; simpl; [|now split].
        left. now exists key, e. }
    destruct (cache !! key) as [e|] eqn:E.
    + destruct (now_check env - timestamp e <? ttl e); simpl.
      * left. now exists key, e.
      * destruct (fst (settle _ _ _ _ _)).
        -- destruct Hlive as [?|?]; [now left | now right].
        -- destruct Hlive as [? [=]].
    + simpl. destruct (fst (settle _ _ _ _ _)).
      * destruct Hlive as [(k0 & e & [= <-] & He & _)|?];
          [congruence | now right].
      * right. destruct Hlive as [? ?]. repeat split; auto. now exists key.
  - unfold fetch. rewrite Hk. simpl. left. split; [|reflexivity].
    unfold cacheKey in Hk.
    destruct (stringify (defaulted options)); congruence.
Qed.

Lemma getCacheTTL_range (url : string) : In (getCacheTTL url) policyTTLs.
Proof.
  unfold getCacheTTL, policyTTLs.
  destruct (includes url "weather"); [simpl; auto|].
  destruct (includes url ".kml"); [simpl; auto|].
  destruct (includes url ".jpg" || includes url ".png"); simpl; auto.
Qed.

Lemma sweep_subseteq (now : Z) (cache : gmap string CacheEntry) :
  optimizeMemory now cache ⊆ cache.
Proof.
  apply map_subseteq_spec. intros k e He.
  now apply optimizeMemory_keeps in He as [He _].
Qed.

Lemma sweep_sweep (t1 t2 : Z) (cache : gmap string CacheEntry) :
  optimizeMemory t2 (optimizeMemory t1 cache)
  = optimizeMemory (Z.max t1 t2) cache.
Proof.
  apply map_eq. intros k. rewrite !optimizeMemory_lookup.
  destruct (cache !! k) as [e|]; [|reflexivity].
  destruct (Z.gtb_spec (t1 - timestamp e) (ttl e)),
    (Z.gtb_spec (t2 - timestamp e) (ttl e)),
    (Z.gtb_spec (Z.max t1 t2 - timestamp e) (ttl e));
    try reflexivity; lia.
Qed.

(** The first component of the continuation. *)
Lemma settle_result (cache : gmap string CacheEntry) (url key : string)
    (s : Settled) (now : Z) :
  fst (settle cache url key s now) =
  match s with
  | Resolved r => Normal r
  | Rejected err =>
      match cache !! key with
      | Some cached => Normal (response cached)
      | None => Throw err
      end
  end.
Proof.
  destruct s as [r|err]; simpl.
  - now destruct (ok r && shouldCache url).
  - now destruct (cache !! key).
Qed.

(** A call leaves the entries under the keys of other requests alone. *)
Lemma fetch_other_key (env : Env) (cache : gmap string CacheEntry)
    (url : string) (options : JsValue) (k : string) :
  cacheKey url (defaulted options) <> Normal k ->
  cache_after (fetch env cache url options) !! k = cache !! k.
Proof.
  intros Hne.
  destruct (fetch_cache_after env cache url options) as [->|(key & Hk & ->)];
    [reflexivity|].
  apply settle_never_removes. intros ->. now apply Hne.
Qed.

End Composition.

(** * Further properties of the cache *)

Module CacheInterplay.
Import Js JSON PerformanceOptimizer Vocabulary Invariants Scenarios.
Import StringFacts CacheProperties Composition.

(** X1: two requests get the same cache key only when they name the same
    resource and their options have the same JSON text. *)
Theorem key_identifies_request (u u' : string) (o o' : JsValue) (k : string) :
  cacheKey u o = Normal k -> cacheKey u' o' = Normal k ->
  u = u' /\ stringify o = stringify o'.
Proof. apply cacheKey_inj. Qed.

Lemma key_identifies_request_witness :
  "trail/map_v2.kml" = "trail/map_v2.kml" /\
  stringify (JObj [("signal", JUndefined)]) = stringify (JObj []).
Proof.
  apply (key_identifies_request "trail/map_v2.kml" "trail/map_v2.kml"
           (JObj [("signal", JUndefined)]) (JObj []) "trail/map_v2.kml_{}");
    reflexivity.
Defined.

(** X2: every entry of a cache the optimizer can hold was stored for a
    cacheable resource, holds an [ok] response, and lives for one of the
    four times of the policy: the time [getCacheTTL] gives the resource
    that its key names. *)
Theorem reachable_entries_follow_policy (cache : gmap string CacheEntry)
    (k : string) (e : CacheEntry) :
  reachable cache -> cache !! k = Some e ->
  ok (response e) = true /\
  In (ttl e) policyTTLs /\
  (exists url options,
     shouldCache url = true /\ cacheKey url (defaulted options) = Normal k) /\
  (forall url options,
     cacheKey url (defaulted options) = Normal k ->
     shouldCache url = true /\ ttl e = getCacheTTL url).
Proof.
  intros Hr He.
  destruct (reachable_policy _ Hr _ _ He) as (u & o & Hu & Hk & Ht & Hok).
  split; [exact Hok|]. split; [rewrite Ht; apply getCacheTTL_range|].
  split; [now exists u, o|].
  intros url options Hk'.
  destruct (cacheKey_inj _ _ _ _ _ Hk Hk') as [<- _]. now split.
Qed.

Lemma reachable_entries_follow_policy_witness :
  ok (response (mkEntry temp72 0 (minutes 10))) = true /\
  In (ttl (mkEntry temp72 0 (minutes 10))) policyTTLs /\
  (exists url options,
     shouldCache url = true /\
     cacheKey url (defaulted options) = Normal "weather/today.json_{}") /\
  (forall url options,
     cacheKey url (defaulted options) = Normal "weather/today.json_{}" ->
     shouldCache url = true /\
     ttl (mkEntry temp72 0 (minutes 10)) = getCacheTTL url).
Proof.
  apply (reachable_entries_follow_policy weatherCache
           "weather/today.json_{}" (mkEntry temp72 0 (minutes 10))).
  - exact (reach_fetch (online temp72 0 0) ∅ "weather/today.json" JUndefined
             reach_new).
  - reflexivity.
Defined.

(** X3: a call never makes up its completion. A response it returns is the
    one stored under its key or the one the transport just resolved with;
    an error it throws is the one of [JSON.stringify], with no request made,
    or the one the transport just rejected with, and then no entry was
    stored under the key. *)
Theorem completion_provenance (env : Env) (cache : gmap string CacheEntry)
    (url : string) (options : JsValue) :
  match result (fetch env cache url options) with
  | Normal r =>
      (exists key e, cacheKey url (defaulted options) = Normal key /\
                     cache !! key = Some e /\ r = response e) \/
      (originalFetch env url (defaulted options) = Resolved r /\
       network (fetch env cache url options) = [(url, defaulted options)])
  | Throw err =>
      (stringify (defaulted options) = Throw err /\
       network (fetch env cache url options) = []) \/
      (originalFetch env url (defaulted options) = Rejected err /\
       network (fetch env cache url options) = [(url, defaulted options)] /\
       exists key, cacheKey url (defaulted options) = Normal key /\
                   cache !! key = None)
  end.
Proof. apply fetch_provenance. Qed.

(** X4: a response that is not [ok] is never served from the cache: when a
    call on a cache the optimizer can hold returns one, the transport
    resolved with it in this very call. *)
Theorem error_response_is_always_live (env : Env)
    (cache : gmap string CacheEntry) (url : string) (options : JsValue)
    (r : Response) :
  reachable cache ->
  result (fetch env cache url options) = Normal r -> ok r = false ->
  originalFetch env url (defaulted options) = Resolved r /\
  network (fetch env cache url options) = [(url, defaulted options)].
Proof.
  intros Hr Hres Hok. pose proof (fetch_provenance env cache url options) as H.
  rewrite Hres in H. destruct H as [(key & e & _ & He & ->)|H]; [|exact H].
  destruct (reachable_policy _ Hr _ _ He) as (_ & _ & _ & _ & _ & Hok').
  congruence.
Qed.

Lemma error_response_is_always_live_witness :
  originalFetch (online notFound (hours 1) (hours 1)) "weather/today.json"
                (defaulted JUndefined) = Resolved notFound /\
  network (fetch (online notFound (hours 1) (hours 1)) weatherCache
                 "weather/today.json" JUndefined)
  = [("weather/today.json", defaulted JUndefined)].
Proof.
  apply (error_response_is_always_live (online notFound (hours 1) (hours 1))
           weatherCache "weather/today.json" JUndefined notFound).
  - exact (reach_fetch (online temp72 0 0) ∅ "weather/today.json" JUndefined
             reach_new).
  - reflexivity.
  - reflexivity.
Defined.

(** X5: after a call has stored a response at time [t1], a later call for
    the same request is answered from the cache, with that response and
    without a request, exactly while [now - t1] is below the time to live of
    the resource; and whenever the transport rejects, early or late, the
    stored response is what the call returns. *)
Theorem later_call_after_store (env1 : Env) (cache : gmap string CacheEntry)
    (url : string) (options : JsValue) (key : string) (r : Response) :
  cacheKey url (defaulted options) = Normal key ->
  network (fetch env1 cache url options) = [(url, defaulted options)] ->
  originalFetch env1 url (defaulted options) = Resolved r ->
  ok r = true -> shouldCache url = true ->
  let stored := cache_after (fetch env1 cache url options) in
  stored !! key = Some (mkEntry r (now_store env1) (getCacheTTL url)) /\
  forall env2,
    (network (fetch env2 stored url options) = [] <->
     now_check env2 - now_store env1 < getCacheTTL url) /\
    (now_check env2 - now_store env1 < getCacheTTL url ->
     result (fetch env2 stored url options) = Normal r) /\
    (forall err, originalFetch env2 url (defaulted options) = Rejected err ->
                 result (fetch env2 stored url options) = Normal r).
Proof.
  intros Hk Hcall Hnet Hok Hu stored.
  assert (Hst : stored !! key
                = Some (mkEntry r (now_store env1) (getCacheTTL url))).
  { subst stored. revert Hcall. rewrite (fetch_unfold _ _ _ _ _ Hk). cbv zeta.
    rewrite Hnet. simpl. rewrite Hok, Hu. simpl.
    destruct (cache !! key) as [e|];
      [destruct (now_check env1 - timestamp e <? ttl e); [discriminate|]|];
      intros _; simpl; apply lookup_insert_eq. }
  split; [exact Hst|]. intros env2.
  rewrite (fetch_unfold _ _ _ _ _ Hk). cbv zeta. rewrite Hst. simpl.
  destruct (Z.ltb_spec (now_check env2 - now_store env1) (getCacheTTL url))
    as [Hlt|Hge]; simpl.
  - repeat split; auto.
  - split; [split; [discriminate | lia]|]. split; [lia|].
    intros err Herr. rewrite settle_result, Herr, Hst. reflexivity.
Qed.

Lemma later_call_after_store_witness :
  let stored :=
    cache_after (fetch (online temp72 0 5) ∅ "weather/today.json" JUndefined)
  in
  stored !! "weather/today.json_{}"
  = Some (mkEntry temp72 5 (getCacheTTL "weather/today.json")) /\
  forall env2,
    (network (fetch env2 stored "weather/today.json" JUndefined) = [] <->
     now_check env2 - 5 < getCacheTTL "weather/today.json") /\
    (now_check env2 - 5 < getCacheTTL "weather/today.json" ->
     result (fetch env2 stored "weather/today.json" JUndefined)
     = Normal temp72) /\
    (forall err,
       originalFetch env2 "weather/today.json" (defaulted JUndefined)
       = Rejected err ->
       result (fetch env2 stored "weather/today.json" JUndefined)
       = Normal temp72).
Proof.
  apply (later_call_after_store (online temp72 0 5) ∅ "weather/today.json"
           JUndefined "weather/today.json_{}" temp72); reflexivity.
Defined.

(** X6: the sweep takes the fallback away. An entry older than its time to
    live is still returned when the transport rejects; once
    [optimizeMemory] has run, the same call throws the error of the
    transport. *)
Theorem sweep_loses_stale_fallback (env : Env)
    (cache : gmap string CacheEntry) (url : string) (options : JsValue)
    (key : string) (e : CacheEntry) (err : JsError) (swept_at : Z) :
  cacheKey url (defaulted options) = Normal key ->
  cache !! key = Some e ->
  swept_at - timestamp e > ttl e ->
  originalFetch env url (defaulted options) = Rejected err ->
  result (fetch env cache url options) = Normal (response e) /\
  result (fetch env (optimizeMemory swept_at cache) url options) = Throw err.
Proof.
  intros Hk He Hold Hnet. rewrite !(fetch_unfold _ _ _ _ _ Hk). cbv zeta.
  rewrite !settle_result, Hnet, optimizeMemory_lookup, He.
  destruct (Z.gtb_spec (swept_at - timestamp e) (ttl e)); [|lia].
  now destruct (now_check env - timestamp e <? ttl e).
Qed.

Lemma sweep_loses_stale_fallback_witness :
  result (fetch (outage (minutes 12)) weatherCache "weather/today.json"
                JUndefined)
  = Normal (response (mkEntry temp72 0 (minutes 10))) /\
  result (fetch (outage (minutes 12))
                (optimizeMemory (minutes 11) weatherCache)
                "weather/today.json" JUndefined)
  = Throw offline.
Proof.
  apply (sweep_loses_stale_fallback (outage (minutes 12)) weatherCache
           "weather/today.json" JUndefined "weather/today.json_{}"
           (mkEntry temp72 0 (minutes 10)) offline (minutes 11));
    reflexivity.
Defined.

(** X7: a sweep does not change which later calls go to the transport: a
    call made at or after the time of the sweep asks the transport on the
    swept cache exactly when it would on the unswept one, and it completes
    alike unless the transport rejects. *)
Theorem sweep_keeps_decisions (env : Env) (cache : gmap string CacheEntry)
    (url : string) (options : JsValue) (swept_at : Z) :
  swept_at <= now_check env ->
  network (fetch env (optimizeMemory swept_at cache) url options)
  = network (fetch env cache url options) /\
  (result (fetch env (optimizeMemory swept_at cache) url options)
   = result (fetch env cache url options) \/
   exists err, originalFetch env url (defaulted options) = Rejected err).
Proof.
  intros Hle. destruct (cacheKey url (defaulted options)) as [key|err] eqn:Hk.
  - destruct (cache !! key) as [e|] eqn:He.
    + destruct (Z.gtb_spec (swept_at - timestamp e) (ttl e)) as [Hold|Hyoung].
      * rewrite !(fetch_unfold _ _ _ _ _ Hk). cbv zeta.
        rewrite optimizeMemory_lookup, He.
        destruct (Z.gtb_spec (swept_at - timestamp e) (ttl e)); [|lia].
        destruct (Z.ltb_spec (now_check env - timestamp e) (ttl e)); [lia|].
        simpl. split; [reflexivity|]. rewrite !settle_result.
        destruct (originalFetch env url (defaulted options)) as [r|err];
          [now left | right; now exists err].
      * destruct (fetch_own_entry env (optimizeMemory swept_at cache) cache
                    url options key Hk) as [-> ->]; [|now split; [|left]].
        rewrite optimizeMemory_lookup, He.
        now destruct (Z.gtb_spec (swept_at - timestamp e) (ttl e)); [lia|].
    + destruct (fetch_own_entry env (optimizeMemory swept_at cache) cache
                  url options key Hk) as [-> ->]; [|now split; [|left]].
      now rewrite optimizeMemory_lookup, He.
  - unfold fetch. rewrite Hk. simpl. split; [reflexivity | now left].
Qed.

Lemma sweep_keeps_decisions_witness :
  network (fetch (online temp72 (minutes 12) (minutes 12))
                 (optimizeMemory (minutes 11) weatherCache)
                 "weather/today.json" JUndefined)
  = network (fetch (online temp72 (minutes 12) (minutes 12)) weatherCache
                   "weather/today.json" JUndefined) /\
  (result (fetch (online temp72 (minutes 12) (minutes 12))
                 (optimizeMemory (minutes 11) weatherCache)
                 "weather/today.json" JUndefined)
   = result (fetch (online temp72 (minutes 12) (minutes 12)) weatherCache
                   "weather/today.json" JUndefined) \/
   exists err,
     originalFetch (online temp72 (minutes 12) (minutes 12))
                   "weather/today.json" (defaulted JUndefined)
     = Rejected err).
Proof.
  apply (sweep_keeps_decisions (online temp72 (minutes 12) (minutes 12))
           weatherCache "weather/today.json" JUndefined (minutes 11)).
  vm_compute. discriminate.
Defined.

(** X8: two sweeps in a row, in either order of their times, leave what
    one sweep at the later time leaves; sweeping again at the same time
    changes nothing. *)
Theorem sweeps_compose (t1 t2 : Z) (cache : gmap string CacheEntry) :
  optimizeMemory t2 (optimizeMemory t1 cache)
  = optimizeMemory (Z.max t1 t2) cache /\
  optimizeMemory t1 (optimizeMemory t2 cache)
  = optimizeMemory t2 (optimizeMemory t1 cache) /\
  optimizeMemory t1 (optimizeMemory t1 cache) = optimizeMemory t1 cache.
Proof.
  rewrite !sweep_sweep, (Z.max_comm t2 t1), Z.max_id. auto.
Qed.

(** X9: the sweep keeps an entry, with the key and the content it had,
    exactly when [now - timestamp <= ttl]; it adds nothing, and it never
    removes an entry that [isCacheValid] accepts at that time. *)
Theorem sweep_keeps_exactly (now : Z) (cache : gmap string CacheEntry)
    (k : string) :
  (forall e, optimizeMemory now cache !! k = Some e <->
             cache !! k = Some e /\ now - timestamp e <= ttl e) /\
  (cache !! k = None -> optimizeMemory now cache !! k = None) /\
  (isCacheValid cache k now = true ->
   optimizeMemory now cache !! k = cache !! k).
Proof.
  split; [intros e; apply optimizeMemory_keeps|]. split.
  - intros Hn. now rewrite optimizeMemory_lookup, Hn.
  - unfold isCacheValid. rewrite optimizeMemory_lookup.
    destruct (cache !! k) as [e|]; [|discriminate].
    intros Hv%Z.ltb_lt.
    now destruct (Z.gtb_spec (now - timestamp e) (ttl e)); [lia|].
Qed.

(** X10: a call adds at most one entry and removes none, so after any
    number of calls the cache has grown by at most that number; a sweep
    never makes the cache larger. *)
Theorem cache_size_bounds (cache : gmap string CacheEntry)
    (calls : list (Env * string * JsValue)) (now : Z) :
  let run := foldl (fun c '(env, url, options) =>
                      cache_after (fetch env c url options)) in
  (forall env url options,
     size cache <= size (cache_after (fetch env cache url options))
     <= S (size cache))%nat /\
  (size cache <= size (run cache calls) <= size cache + length calls)%nat /\
  (size (optimizeMemory now cache) <= size cache)%nat.
Proof.
  cbv zeta.
  assert (Hone : forall c env url options,
            (size c <= size (cache_after (fetch env c url options))
             <= S (size c))%nat).
  { intros c env url options.
    destruct (fetch_cache_after env c url options) as [->|(key & _ & ->)];
      [lia|].
    destruct (settle_cache c url key
                (originalFetch env url (defaulted options)) (now_store env))
      as [->|(_ & r & _ & _ & ->)]; [lia|].
    rewrite map_size_insert. destruct (c !! key); simpl; lia. }
  split; [apply Hone|]. split; [|apply map_subseteq_size, sweep_subseteq].
  revert cache. induction calls as [|[[env url] options] calls IH];
    intros cache; simpl; [lia|].
  specialize (IH (cache_after (fetch env cache url options))).
  specialize (Hone cache env url options). lia.
Qed.

(** X11: when two responses for one key arrive one after the other, the
    cache ends with the later one if it is [ok], as if the earlier one had
    never arrived; a later response that is not [ok] leaves the earlier
    entry; and a later rejection is answered with the response the earlier
    arrival stored. *)
Theorem later_arrival_wins (cache : gmap string CacheEntry)
    (url key : string) (r1 r2 : Response) (t1 t2 : Z) (err : JsError) :
  shouldCache url = true ->
  let first := snd (settle cache url key (Resolved r1) t1) in
  (ok r2 = true ->
   snd (settle first url key (Resolved r2) t2)
   = <[key := mkEntry r2 t2 (getCacheTTL url)]> cache) /\
  (ok r2 = false -> snd (settle first url key (Resolved r2) t2) = first) /\
  (ok r1 = true ->
   settle first url key (Rejected err) t2 = (Normal r1, first)).
Proof.
  intros Hu. cbv zeta. simpl. rewrite Hu, !andb_true_r. repeat split.
  - intros ->. destruct (ok r1); simpl; [apply insert_insert_eq | reflexivity].
  - now intros ->.
  - intros ->. simpl. now rewrite lookup_insert_eq.
Qed.

Lemma later_arrival_wins_witness :
  let first :=
    snd (settle ∅ "weather/today.json" "weather/today.json_{}"
           (Resolved temp72) 5) in
  (ok (mkResponse 200 "{temp:75}") = true ->
   snd (settle first "weather/today.json" "weather/today.json_{}"
          (Resolved (mkResponse 200 "{temp:75}")) 9)
   = <["weather/today.json_{}" :=
         mkEntry (mkResponse 200 "{temp:75}") 9
                 (getCacheTTL "weather/today.json")]> ∅) /\
  (ok (mkResponse 200 "{temp:75}") = false ->
   snd (settle first "weather/today.json" "weather/today.json_{}"
          (Resolved (mkResponse 200 "{temp:75}")) 9) = first) /\
  (ok temp72 = true ->
   settle first "weather/today.json" "weather/today.json_{}"
     (Rejected offline) 9 = (Normal temp72, first)).
Proof.
  apply (later_arrival_wins ∅ "weather/today.json" "weather/today.json_{}"
           temp72 (mkResponse 200 "{temp:75}") 5 9 offline).
  reflexivity.
Defined.

(** X12: calls for different requests do not interfere. After a call for
    one resource, or for the same resource with options of another JSON
    text, a call completes with what it would have completed with before,
    asks the transport in the same cases, and finds the entry under its key
    as it was. *)
Theorem different_requests_do_not_interfere (env1 env2 : Env)
    (cache : gmap string CacheEntry) (u1 u2 : string) (o1 o2 : JsValue) :
  u1 <> u2 \/ stringify (defaulted o1) <> stringify (defaulted o2) ->
  let after := cache_after (fetch env1 cache u1 o1) in
  result (fetch env2 after u2 o2) = result (fetch env2 cache u2 o2) /\
  network (fetch env2 after u2 o2) = network (fetch env2 cache u2 o2) /\
  (forall key, cacheKey u2 (defaulted o2) = Normal key ->
               after !! key = cache !! key).
Proof.
  intros Hdiff after.
  assert (Hkey : forall key, cacheKey u2 (defaulted o2) = Normal key ->
                             after !! key = cache !! key).
  { intros key Hk. apply fetch_other_key. intros Hk1.
    destruct (cacheKey_inj _ _ _ _ _ Hk1 Hk) as [Hu Hs]. tauto. }
  destruct (cacheKey u2 (defaulted o2)) as [key|err] eqn:Hk.
  - destruct (fetch_own_entry env2 after cache u2 o2 key Hk (Hkey key eq_refl))
      as [-> ->]. auto.
  - unfold fetch. rewrite Hk. simpl. auto.
Qed.

Lemma different_requests_do_not_interfere_witness :
  let after :=
    cache_after (fetch (online temp72 (minutes 1) (minutes 1)) weatherCache
                       "weather/tomorrow.json" JUndefined) in
  result (fetch (outage (minutes 2)) after "weather/today.json" JUndefined)
  = result (fetch (outage (minutes 2)) weatherCache "weather/today.json"
                  JUndefined) /\
  network (fetch (outage (minutes 2)) after "weather/today.json" JUndefined)
  = network (fetch (outage (minutes 2)) weatherCache "weather/today.json"
                   JUndefined) /\
  (forall key,
     cacheKey "weather/today.json" (defaulted JUndefined) = Normal key ->
     after !! key = weatherCache !! key).
Proof.
  apply (different_requests_do_not_interfere
           (online temp72 (minutes 1) (minutes 1)) (outage (minutes 2))
           weatherCache "weather/tomorrow.json" "weather/today.json"
           JUndefined JUndefined).
  left. discriminate.
Defined.

End CacheInterplay.

(** * The memory monitor and the recommendations *)

Module MonitorProperties.
Import Js JSON PerformanceOptimizer Monitoring.
Import CacheProperties Composition.

(** X13: the memory monitor sweeps the cache exactly when the heap holds
    more than 50 MiB (52428800 bytes); whenever it sweeps, the
    recommendations computed next contain the advice on memory; at or below
    the threshold it leaves the cache as it is. *)
Theorem memory_tick_sweeps_above_50_MiB (usedJSHeapSize now : Z)
    (this : Optimizer) :
  let after := memoryTick usedJSHeapSize now this in
  (52428800 < usedJSHeapSize ->
   cache after = optimizeMemory now (cache this) /\
   In memoryAdvice (getPerformanceRecommendations after)) /\
  (usedJSHeapSize <= 52428800 -> cache after = cache this).
Proof.
  cbv zeta. unfold memoryTick, getPerformanceRecommendations, gt. simpl.
  assert (H50 : QArith_base.Qle_bool
                  (QArith_base.Qmake usedJSHeapSize (1024 * 1024))
                  (QArith_base.inject_Z 50)
                = (usedJSHeapSize <=? 52428800)).
  { unfold QArith_base.Qle_bool, QArith_base.inject_Z. simpl.
    change (50 * Z.pos (1024 * 1024)) with 52428800.
    now rewrite Z.mul_1_r. }
  assert (H30 : QArith_base.Qle_bool
                  (QArith_base.Qmake usedJSHeapSize (1024 * 1024))
                  (QArith_base.inject_Z 30)
                = (usedJSHeapSize <=? 31457280)).
  { unfold QArith_base.Qle_bool, QArith_base.inject_Z. simpl.
    change (30 * Z.pos (1024 * 1024)) with 31457280.
    now rewrite Z.mul_1_r. }
  rewrite H50. split.
  - intros Hgt. destruct (Z.leb_spec usedJSHeapSize 52428800); [lia|]. simpl.
    split; [reflexivity|]. rewrite H30.
    destruct (Z.leb_spec usedJSHeapSize 31457280); [lia|]. simpl.
    destruct (100 <? Z.of_nat (size (optimizeMemory now (cache this))));
      rewrite ?in_app_iff; simpl; tauto.
  - intros Hle. now destruct (Z.leb_spec usedJSHeapSize 52428800); [|lia].
Qed.

Lemma fetch_size (env : Env) (c : gmap string CacheEntry) (url : string)
    (options : JsValue) :
  (size (cache_after (fetch env c url options)) <= S (size c))%nat.
Proof.
  destruct (fetch_cache_after env c url options) as [->|(key & _ & ->)];
    [lia|].
  destruct (settle_cache c url key
              (originalFetch env url (defaulted options)) (now_store env))
    as [->|(_ & r & _ & _ & ->)]; [lia|].
  rewrite map_size_insert. destruct (c !! key); simpl; lia.
Qed.

Lemma occur_size (this : Optimizer) (ev : Event) :
  (size (cache (occur this ev))
   <= size (cache this) + (if is_call ev then 1 else 0))%nat.
Proof.
  destruct ev as [env url options|now|bytes now]; simpl.
  - pose proof (fetch_size env (cache this) url options). lia.
  - pose proof (map_subseteq_size _ _ (sweep_subseteq now (cache this))). lia.
  - unfold memoryTick. cbv zeta.
    destruct (gt _ 50); simpl; [|lia].
    pose proof (map_subseteq_size _ _ (sweep_subseteq now (cache this))). lia.
Qed.

Lemma events_size (events : list Event) (this : Optimizer) :
  (size (cache (foldl occur this events))
   <= size (cache this) + length (List.filter is_call events))%nat.
Proof.
  revert this. induction events as [|ev events IH]; intros this; simpl; [lia|].
  specialize (IH (occur this ev)). pose proof (occur_size this ev).
  destruct (is_call ev); simpl; lia.
Qed.

Lemma cacheAdvice_iff (this : Optimizer) :
  In cacheAdvice (getPerformanceRecommendations this) <->
  (100 < size (cache this))%nat.
Proof.
  unfold getPerformanceRecommendations. cbv zeta.
  destruct (Z.ltb_spec 100 (Z.of_nat (size (cache this)))) as [H|H];
    destruct (gt (loadTime (metrics this)) 3000),
      (gt (memoryUsage (metrics this)) 30);
    rewrite ?in_app_iff; simpl;
    (split; [intros Hin | intros Hlt]); try lia; try tauto;
    repeat (destruct Hin as [Hin|Hin]); try discriminate Hin; tauto.
Qed.

(** X14: the advice on cache size limits is given exactly when the cache
    holds more than 100 entries. Whatever calls, sweeps and monitor ticks
    have happened since construction, the cache holds at most as many
    entries as there were calls, so the advice cannot be given before the
    wrapper has been called more than 100 times. *)
Theorem cache_advice_needs_over_100_calls (events : list Event) :
  let this := foldl occur construct events in
  (In cacheAdvice (getPerformanceRecommendations this) <->
   (100 < size (cache this))%nat) /\
  (size (cache this) <= length (List.filter is_call events))%nat /\
  ((length (List.filter is_call events) <= 100)%nat ->
   ~ In cacheAdvice (getPerformanceRecommendations this)).
Proof.
  cbv zeta. pose proof (events_size events construct) as Hsize.
  change (size (cache construct)) with 0%nat in Hsize. simpl in Hsize.
  split; [apply cacheAdvice_iff|]. split; [exact Hsize|].
  intros Hle Hin%cacheAdvice_iff. lia.
Qed.

End MonitorProperties.
